(** * The [$pull] update modifier (src/mongo/db/ops/modifier_pull.cpp)

    A shallow embedding of [ModifierPull::prepare], [ModifierPull::apply],
    [ModifierPull::log] and [ModifierPull::isMatch], together with models of
    the collaborators they call (the mutable BSON document, the path
    descriptor, longest-prefix resolution, the match expression and the log
    builder), followed by the properties of the modifier. *)

From Stdlib Require Import ZArith Lia Floats.SpecFloat.
From stdpp Require Import base option list sets strings.

Local Open Scope Z_scope.
Set Warnings "-register-all,-clear-no-such-hyp".

(** ** Status and error codes (mongo/base/error_codes.h, mongo/base/status.h) *)

Module ErrorCodes.
(** Modelled from the spec: the error codes of mongo/base/error_codes.h that
    the modifier and its collaborators return.  The spec calls [BadValue]
    InvalidArgument and [InternalError] Internal. *)
Inductive Error :=
| OK
| InternalError
| BadValue
| IllegalOperation
| NonExistentPath
| PathNotViable.

#[global] Instance Error_eq_dec : EqDecision Error.
Proof. solve_decision. Defined.
End ErrorCodes.

(** Modelled from the spec: [Status] of mongo/base/status.h, an error code
    and a message. *)
Record Status := mkStatus { code : ErrorCodes.Error; reason : string }.

(** Modelled from the spec: [Status::OK()]. *)
Definition Status_OK : Status := mkStatus ErrorCodes.OK "".

(** Modelled from the spec: [Status::isOK]. *)
Definition isOK (s : Status) : bool := bool_decide (code s = ErrorCodes.OK).

(** ** BSON values (mongo/bson) *)

(** Modelled from the spec: the type tags of mongo/bson that the model uses. *)
Inductive BSONType :=
| EOO
| NumberDouble
| String
| Object
| Array
| Bool
| jstNULL
| NumberInt
| NumberLong.

#[global] Instance BSONType_eq_dec : EqDecision BSONType.
Proof. solve_decision. Defined.

(** Modelled from the spec: the value carried by a BSON element.  An embedded
    object and an array are both sequences of named elements.  A double is
    an IEEE-754 binary64 number. *)
Inductive Value :=
| VEOO
| VDouble (d : spec_float)
| VString (s : string)
| VObject (o : list (string * Value))
| VArray (o : list (string * Value))
| VBool (b : bool)
| VNull
| VInt (n : Z)
| VLong (n : Z).

(** [BSONElement]: a field name and a value; [BSONObj]: a sequence of them. *)
Abbreviation BSONElement := (string * Value)%type.
Abbreviation BSONObj := (list (string * Value)).

(** Modelled from the spec: the default-constructed [BSONElement], of type EOO. *)
Definition BSONElement_EOO : BSONElement := (""%string, VEOO).

(** Modelled from the spec: [BSONElement::type]. *)
Definition typeOf (v : Value) : BSONType :=
  match v with
  | VEOO => EOO
  | VDouble _ => NumberDouble
  | VString _ => String
  | VObject _ => Object
  | VArray _ => Array
  | VBool _ => Bool
  | VNull => jstNULL
  | VInt _ => NumberInt
  | VLong _ => NumberLong
  end.

(** Modelled from the spec: [BSONElement::wrap(name)], the one-field object
    that holds the value of the element under a new name. *)
Definition wrap (e : BSONElement) (name : string) : BSONObj := [(name, snd e)].

(** Modelled from the spec: [BSONElement::embeddedObject] of an element of
    type Object. *)
Definition embeddedObject (e : BSONElement) : BSONObj :=
  match snd e with
  | VObject o => o
  | _ => []
  end.

(** Modelled from the spec: the canonical equality of the document model,
    which mongo/bson implements and src/ does not contain.  The spec calls it
    "type-aware, not merely structural": two values are equal only when they
    have the same type and the same contents; the names of the fields inside
    an embedded object or array are part of its contents. *)
Fixpoint valueEquals (a b : Value) {struct a} : bool :=
  let fix fieldsEqual (l1 l2 : list (string * Value)) {struct l1} : bool :=
    match l1, l2 with
    | [], [] => true
    | (n1, v1) :: t1, (n2, v2) :: t2 =>
        String.eqb n1 n2 && valueEquals v1 v2 && fieldsEqual t1 t2
    | _, _ => false
    end in
  match a, b with
  | VEOO, VEOO => true
  | VDouble x, VDouble y => SFeqb x y
  | VString x, VString y => String.eqb x y
  | VObject x, VObject y => fieldsEqual x y
  | VArray x, VArray y => fieldsEqual x y
  | VBool x, VBool y => Bool.eqb x y
  | VNull, VNull => true
  | VInt x, VInt y => x =? y
  | VLong x, VLong y => x =? y
  | _, _ => false
  end.

(** Modelled from the spec: [BSONElement::woCompare(rhs, considerFieldName)]
    of mongo/bson, of which the modifier only tests the result against zero.
    Equal elements compare as 0 and unequal ones as 1 (the sign of a non-zero
    result is not modelled). *)
Definition woCompare (l r : BSONElement) (considerFieldName : bool) : Z :=
  if (negb considerFieldName || String.eqb (fst l) (fst r))
     && valueEquals (snd l) (snd r)
  then 0 else 1.

(** ** [size_t] arithmetic

    Sizes and indices are 64-bit unsigned integers; subtraction wraps. *)

Definition SIZE_MAX : Z := 2 ^ 64 - 1.

Definition size_t_sub (a b : Z) : Z := (a - b) mod 2 ^ 64.

(** ** Path descriptor (mongo/db/field_ref.h)

    Modelled from the spec: [FieldRef] is not under src/.  It is the ordered
    sequence of the segments of a dotted field name; [setPart] replaces one
    segment and [dottedField] joins them again. *)

(** Modelled from the spec: [FieldRef] of mongo/db/field_ref.h, the ordered
    sequence of the segments of a dotted field name. *)
Record FieldRef := mkFieldRef { parts : list string }.

(** Modelled from the spec: [FieldRef::numParts], a [size_t]. *)
Definition numParts (f : FieldRef) : Z := Z.of_nat (length (parts f)).

(** Modelled from the spec: [FieldRef::setPart], which replaces one segment. *)
Definition setPart (f : FieldRef) (i : Z) (part : string) : FieldRef :=
  mkFieldRef (<[Z.to_nat i := part]> (parts f)).

(** Modelled from the spec: [FieldRef::dottedField], the segments joined by
    dots. *)
Definition dottedField (f : FieldRef) : string := String.concat "." (parts f).

(** ** Mutable document (mongo/bson/mutable)

    Modelled from the spec: the document tree is not under src/.  The spec
    asks for "a stable node-identity scheme (e.g., arena indices)": a document
    is an arena of element representations, an [Element] is an index into it
    and [doc.end()] is the handle that designates no element.  Every
    representation records its field name, its type, the value it was built
    from (absent once the subtree below it has been changed), its parent and
    the ordered sequence of its children. *)

Abbreviation Element := (option nat).

(** Modelled from the spec: the representation of one element in the arena of
    a mutable document. *)
Record ElementRep := mkRep {
  repName : string;
  repType : BSONType;
  repValue : option Value;
  parent : Element;
  children : list nat
}.

Abbreviation Document := (list ElementRep).

(** Modelled from the spec: [Document::end()]. *)
Definition Document_end : Element := None.

(** Modelled from the spec: [Element::ok]. *)
Definition ok (e : Element) : bool := bool_decide (is_Some e).

(** Modelled from the spec: the representation that a handle designates. *)
Definition getRep (d : Document) (e : Element) : option ElementRep :=
  match e with
  | Some i => d !! i
  | None => None
  end.

(** Modelled from the spec: [Element::getType]. *)
Definition getType (d : Document) (e : Element) : BSONType :=
  match getRep d e with
  | Some rep => repType rep
  | None => EOO
  end.

(** Modelled from the spec: the children of an element, from left to right. *)
Definition childrenOf (d : Document) (e : Element) : list nat :=
  match getRep d e with
  | Some rep => children rep
  | None => []
  end.

(** Modelled from the spec: [Element::hasChildren]. *)
Definition hasChildren (d : Document) (e : Element) : bool :=
  match childrenOf d e with
  | [] => false
  | _ :: _ => true
  end.

(** Modelled from the spec: [Element::leftChild]. *)
Definition leftChild (d : Document) (e : Element) : Element :=
  head (childrenOf d e).

(** Modelled from the spec: the element that follows [i] in a sequence of
    siblings. *)
Fixpoint nextAfter (i : nat) (l : list nat) : Element :=
  match l with
  | [] => None
  | x :: rest => if (x =? i)%nat then head rest else nextAfter i rest
  end.

(** Modelled from the spec: [Element::rightSibling], the sibling that follows
    the element under its parent. *)
Definition rightSibling (d : Document) (e : Element) : Element :=
  match getRep d e with
  | Some rep => match e with
                | Some i => nextAfter i (childrenOf d (parent rep))
                | None => None
                end
  | None => None
  end.

(** Modelled from the spec: [Element::hasValue]. *)
Definition hasValue (d : Document) (e : Element) : bool :=
  match getRep d e with
  | Some rep => bool_decide (is_Some (repValue rep))
  | None => false
  end.

(** Modelled from the spec: [Element::getValue], the element as a
    [BSONElement], or the EOO element when it has no value. *)
Definition getValue (d : Document) (e : Element) : BSONElement :=
  match getRep d e with
  | Some rep => match repValue rep with
                | Some v => (repName rep, v)
                | None => BSONElement_EOO
                end
  | None => BSONElement_EOO
  end.

(** Modelled from the spec: [Element::getValueObject]. *)
Definition getValueObject (d : Document) (e : Element) : BSONObj :=
  embeddedObject (getValue d e).

(** Modelled from the spec: [Element::compareWithBSONElement], the comparison
    of the value of the element with a [BSONElement]. *)
Definition compareWithBSONElement (d : Document) (e : Element)
    (other : BSONElement) (considerFieldName : bool) : Z :=
  woCompare (getValue d e) other considerFieldName.

(** Modelled from the spec: the three updates of a representation. *)
Definition clearValue (rep : ElementRep) : ElementRep :=
  mkRep (repName rep) (repType rep) None (parent rep) (children rep).

Definition setParent (p : Element) (rep : ElementRep) : ElementRep :=
  mkRep (repName rep) (repType rep) (repValue rep) p (children rep).

Definition setChildren (l : list nat) (rep : ElementRep) : ElementRep :=
  mkRep (repName rep) (repType rep) (repValue rep) (parent rep) l.

(** Modelled from the spec: drops the stored value of an element and of its
    ancestors, up to the first one that has none left; a value stored for
    an element describes the whole subtree, and is void once the subtree
    changes. *)
Fixpoint deserialize (fuel : nat) (d : Document) (e : Element) : Document :=
  match fuel, e with
  | S fuel', Some i =>
      match d !! i with
      | Some rep =>
          match repValue rep with
          | Some _ => deserialize fuel' (alter clearValue i d) (parent rep)
          | None => d
          end
      | None => d
      end
  | _, _ => d
  end.

(** Modelled from the spec: a representation without the child [i]. *)
Definition withoutChild (i : nat) (rep : ElementRep) : ElementRep :=
  setChildren (filter (λ x, x ≠ i) (children rep)) rep.

(** Modelled from the spec: [Element::remove], which detaches the element from
    its parent and is refused for an element without a parent; the other
    children keep their order and every handle stays valid. *)
Definition remove (d : Document) (e : Element) : Status * Document :=
  match e with
  | Some i =>
      match d !! i with
      | Some rep =>
          match parent rep with
          | Some p =>
              let d1 := alter (withoutChild i) p d in
              let d2 := deserialize (length d1) d1 (Some p) in
              (Status_OK, alter (setParent None) i d2)
          | None =>
              (mkStatus ErrorCodes.IllegalOperation
                 "trying to remove a parentless element", d)
          end
      | None => (mkStatus ErrorCodes.IllegalOperation "invalid element", d)
      end
  | None => (mkStatus ErrorCodes.IllegalOperation "invalid element", d)
  end.

(** Modelled from the spec: [Element::operator[](name)] and
    [Element::operator[](n)]. *)
Definition findFirstChildNamed (d : Document) (e : Element) (name : string)
    : Element :=
  List.find
    (λ k, match d !! k with
          | Some rep => String.eqb (repName rep) name
          | None => false
          end)
    (childrenOf d e).

Definition findNthChild (d : Document) (e : Element) (n : nat) : Element :=
  childrenOf d e !! n.

(** ** Longest-prefix resolution (mongo/db/ops/path_support.h)

    Modelled from the spec: [pathsupport::findLongestPrefix] is not under
    src/.  It walks the segments of the descriptor down from [root]: an
    object is entered by field name, an array by position, and nothing else
    can be entered.  It reports "not found" ([NonExistentPath]) when not even
    the first segment exists, "found but wrong shape" ([PathNotViable]) when
    a segment would have to enter a value that cannot hold it, and otherwise
    succeeds with the index of the last segment found and its element.  The
    two out-parameters keep the values they had when nothing is found. *)

(** Modelled from the spec: the position that a segment denotes in an array,
    when it is a sequence of decimal digits. *)
Definition digitOf (c : Ascii.ascii) : option nat :=
  let n := Ascii.nat_of_ascii c in
  if ((48 <=? n) && (n <=? 57))%nat then Some (n - 48)%nat else None.

Fixpoint parseDigits (s : string) (acc : nat) : option nat :=
  match s with
  | EmptyString => Some acc
  | String.String c rest =>
      match digitOf c with
      | Some k => parseDigits rest (10 * acc + k)%nat
      | None => None
      end
  end.

Definition parseIndex (s : string) : option nat :=
  match s with
  | EmptyString => None
  | _ => parseDigits s 0%nat
  end.

(** Modelled from the spec: one step down from [prev], that is the element
    reached and whether the step is viable. *)
Definition stepInto (d : Document) (prev : nat) (part : string)
    : Element * bool :=
  match getType d (Some prev) with
  | Object => (findFirstChildNamed d (Some prev) part, true)
  | Array =>
      match parseIndex part with
      | Some n => (findNthChild d (Some prev) n, true)
      | None => (Some prev, false)
      end
  | _ => (Some prev, false)
  end.

(** Modelled from the spec: the loop over the segments, which gives the number
    of segments consumed, the last element entered, the element reached and
    whether the path is viable. *)
Fixpoint prefixLoop (d : Document) (ps : list string) (i : nat) (curr : nat)
    : nat * nat * Element * bool :=
  match ps with
  | [] => (i, curr, Some curr, true)
  | part :: rest =>
      match stepInto d curr part with
      | (Some next, true) => prefixLoop d rest (S i) next
      | (next, viable) => (i, curr, next, viable)
      end
  end.

(** Modelled from the spec: [pathsupport::findLongestPrefix]. *)
Definition findLongestPrefix (prefix : FieldRef) (d : Document)
    (root : Element) (idxFound : Z) (elemFound : Element)
    : Status * Z * Element :=
  match root with
  | Some r =>
      if negb (hasChildren d root) || (numParts prefix =? 0) then
        (mkStatus ErrorCodes.NonExistentPath
           "either the document or the path are empty", idxFound, elemFound)
      else
        match prefixLoop d (parts prefix) 0 r with
        | (O, _, _, _) =>
            (mkStatus ErrorCodes.NonExistentPath
               "cannot find path in the document", idxFound, elemFound)
        | (S i, prev, _, false) =>
            (mkStatus ErrorCodes.PathNotViable "path is not viable",
             Z.of_nat i, Some prev)
        | (S i, _, Some curr, true) => (Status_OK, Z.of_nat i, Some curr)
        | (S i, prev, None, true) => (Status_OK, Z.of_nat i, Some prev)
        end
  | None =>
      (mkStatus ErrorCodes.NonExistentPath
         "either the document or the path are empty", idxFound, elemFound)
  end.

(** ** Match expressions (mongo/db/matcher)

    Modelled from the spec: a compiled predicate is known to the modifier
    only through [matchesBSON], which evaluates it against an object. *)

(** Modelled from the spec: [MatchExpression], a compiled predicate. *)
Record MatchExpression := mkMatchExpression { matchesBSON : BSONObj → bool }.

(** ** The driver's [ExecInfo] (mongo/db/ops/modifier_interface.h)

    Modelled from the spec: [ModifierInterface::ExecInfo] is not under src/.
    The two slots of the [fieldRef] array hold pointers to path descriptors,
    null until a modifier registers one; [noOp] is false until a modifier
    sets it.  A slot is modelled by the descriptor it points to, as it is
    when [prepare] returns. *)

Module ExecInfo.
Record t := mk {
  fieldRef_0 : option FieldRef;
  fieldRef_1 : option FieldRef;
  noOp : bool
}.

Definition new : t := mk None None false.

Definition set_fieldRef_0 (f : FieldRef) (e : t) : t :=
  mk (Some f) (fieldRef_1 e) (noOp e).

Definition set_noOp (b : bool) (e : t) : t :=
  mk (fieldRef_0 e) (fieldRef_1 e) b.
End ExecInfo.

(** ** [ModifierPull::PreparedState]

    The reference to the document that the C++ struct holds is the document
    that the functions below take and return. *)

Module PreparedState.
Record t := mk {
  idxFound : Z;
  elemFound : Element;
  boundDollar : string;
  elementsToRemove : list Element;
  noOp : bool
}.

Definition new : t := mk 0 Document_end "" [] false.

Definition set_found (i : Z) (e : Element) (s : t) : t :=
  mk i e (boundDollar s) (elementsToRemove s) (noOp s).

Definition set_boundDollar (b : string) (s : t) : t :=
  mk (idxFound s) (elemFound s) b (elementsToRemove s) (noOp s).

Definition set_elementsToRemove (l : list Element) (s : t) : t :=
  mk (idxFound s) (elemFound s) (boundDollar s) l (noOp s).

Definition set_noOp (b : bool) (s : t) : t :=
  mk (idxFound s) (elemFound s) (boundDollar s) (elementsToRemove s) b.
End PreparedState.

(** ** [ModifierPull] *)

Record ModifierPull := mkModifierPull {
  _fieldRef : FieldRef;
  _posDollar : Z;
  _exprElt : BSONElement;
  _exprObj : BSONObj;
  _matchExpr : option MatchExpression;
  _matcherOnPrimitive : bool;
  _preparedState : option PreparedState.t
}.

Definition set_prepared (f : FieldRef) (s : PreparedState.t)
    (self : ModifierPull) : ModifierPull :=
  mkModifierPull f (_posDollar self) (_exprElt self) (_exprObj self)
    (_matchExpr self) (_matcherOnPrimitive self) (Some s).

(** [ModifierPull::isMatch] *)
Definition isMatch (self : ModifierPull) (d : Document) (element : Element)
    : bool :=
  match _matchExpr self with
  | None => compareWithBSONElement d element (_exprElt self) false =? 0
  | Some matchExpr =>
      if _matcherOnPrimitive self then
        let candidate := wrap (getValue d element) "" in
        matchesBSON matchExpr candidate
      else if negb (bool_decide (getType d element = Object)) then false
      else matchesBSON matchExpr (getValueObject d element)
  end.

(** The walk over the values of the array in [prepare]; it gives nothing
    when it is still running after [fuel] elements. *)
Fixpoint prepare_walk (fuel : nat) (self : ModifierPull) (d : Document)
    (cursor : Element) (elementsToRemove : list Element)
    : option (list Element) :=
  match cursor with
  | None => Some elementsToRemove
  | Some _ =>
      match fuel with
      | O => None
      | S fuel' =>
          prepare_walk fuel' self d (rightSibling d cursor)
            (if isMatch self d cursor
             then elementsToRemove ++ [cursor]
             else elementsToRemove)
      end
  end.

(** [ModifierPull::prepare].  The result is the returned status and the
    modifier, the document and [execInfo] as the call leaves them. *)
Definition prepare (fuel : nat) (self : ModifierPull) (d : Document)
    (root : Element) (matchedField : string) (execInfo : ExecInfo.t)
    : option (Status * ModifierPull * Document * ExecInfo.t) :=
  let st0 := PreparedState.new in
  (* If we have a $-positional field, bind it to an actual field part. *)
  let bound : Status + PreparedState.t * FieldRef :=
    if bool_decide (_posDollar self ≠ 0) then
      if String.eqb matchedField "" then
        inl (mkStatus ErrorCodes.BadValue "matched field not provided")
      else
        inr (PreparedState.set_boundDollar matchedField st0,
             setPart (_fieldRef self) (_posDollar self) matchedField)
    else inr (st0, _fieldRef self) in
  match bound with
  | inl status => Some (status, set_prepared (_fieldRef self) st0 self, d, execInfo)
  | inr (st1, fieldRef) =>
      (* Locate the field name in 'root'. *)
      let '(status, idx, elem) :=
        findLongestPrefix fieldRef d root
          (PreparedState.idxFound st1) (PreparedState.elemFound st1) in
      let st2 := PreparedState.set_found idx elem st1 in
      let located : Status + PreparedState.t :=
        if bool_decide (code status = ErrorCodes.NonExistentPath) then
          inr (PreparedState.set_found idx Document_end st2)
        else if negb (isOK status) then inl status
        else inr st2 in
      match located with
      | inl status => Some (status, set_prepared fieldRef st2 self, d, execInfo)
      | inr st3 =>
          (* We register interest in the field name. *)
          let execInfo1 := ExecInfo.set_fieldRef_0 fieldRef execInfo in
          let elemFound := PreparedState.elemFound st3 in
          let noOp :=
            Some (Status_OK,
                  set_prepared fieldRef (PreparedState.set_noOp true st3) self,
                  d, ExecInfo.set_noOp true execInfo1) in
          if negb (ok elemFound)
             || (PreparedState.idxFound st3 <? size_t_sub (numParts fieldRef) 1)
          then noOp
          else if negb (bool_decide (getType d elemFound = Array)) then
            Some (mkStatus ErrorCodes.BadValue
                    "Cannot apply $pull to a non-array value",
                  set_prepared fieldRef st3 self, d, execInfo1)
          else if negb (hasChildren d elemFound) then noOp
          else
            match prepare_walk fuel self d (leftChild d elemFound)
                    (PreparedState.elementsToRemove st3) with
            | None => None
            | Some toRemove =>
                let st4 := PreparedState.set_elementsToRemove toRemove st3 in
                match toRemove with
                | [] =>
                    Some (Status_OK,
                          set_prepared fieldRef
                            (PreparedState.set_noOp true st4) self,
                          d, ExecInfo.set_noOp true execInfo1)
                | _ :: _ =>
                    Some (Status_OK, set_prepared fieldRef st4 self, d,
                          execInfo1)
                end
            end
      end
  end.

(** [ModifierPull::apply]: the status returned and the document as the call
    leaves it.  The status of each [remove] is dropped, as in the source, and
    the two [dassert]s, compiled out of a production build, are not tested.
    Without a prepared state the call dereferences a null pointer and has no
    result. *)
Definition apply (self : ModifierPull) (d : Document)
    : option (Status * Document) :=
  match _preparedState self with
  | Some st =>
      Some (Status_OK,
            fold_left (λ doc where_, snd (remove doc where_))
              (PreparedState.elementsToRemove st) d)
  | None => None
  end.

(** ** The log builder (mongo/db/ops/log_builder.h)

    [log] is handed a [LogBuilder] and works on it and on the document it
    owns through six operations, each of which may be rejected: the three
    element constructors then return [doc.end()], the others a status that is
    not OK.  [L] is the state of the log builder together with its document. *)

(** Modelled from the spec: the operations of [LogBuilder] and of its
    document that [log] calls. *)
Class LogBuilderOps (L : Type) := {
  makeElementInt : L → string → Z → Element * L;
  makeElementArray : L → string → Element * L;
  makeElementWithNewFieldName : L → string → BSONElement → Element * L;
  pushBack : L → Element → Element → Status * L;
  addToSets : L → Element → Status * L;
  addToUnsets : L → Element → Status * L
}.

Section Log.
Context {L : Type} {ops : LogBuilderOps L}.

(** The loop of [log] that copies each array entry to the log document.
    [Some status] in the result is the status with which [log] returns
    from inside the loop; the loop gives nothing when it is still running
    after [fuel] entries. *)
Fixpoint log_copy (fuel : nat) (d : Document) (logBuilder : L)
    (logElement curr : Element) : option (option Status * L) :=
  match curr with
  | None => Some (None, logBuilder)
  | Some _ =>
      match fuel with
      | O => None
      | S fuel' =>
          let '(currCopy, lb1) :=
            makeElementWithNewFieldName logBuilder "" (getValue d curr) in
          if negb (ok currCopy) then
            Some (Some (mkStatus ErrorCodes.InternalError
                          "could create copy element"), lb1)
          else
            let '(status, lb2) := pushBack lb1 logElement currCopy in
            if negb (isOK status) then
              Some (Some (mkStatus ErrorCodes.BadValue
                            "could not append entry for $pull log"), lb2)
            else log_copy fuel' d lb2 logElement (rightSibling d curr)
      end
  end.

(** [ModifierPull::log]: the status returned, and the target document and
    the log builder as the call leaves them. *)
Definition log (fuel : nat) (self : ModifierPull) (d : Document)
    (logBuilder : L) : option (Status * Document * L) :=
  match _preparedState self with
  | None => None
  | Some st =>
      if negb (ok (PreparedState.elemFound st))
         || (PreparedState.idxFound st
             <? size_t_sub (numParts (_fieldRef self)) 1)
      then
        (* We didn't find the element to pull from: log an unset. *)
        let '(logElement, lb1) :=
          makeElementInt logBuilder (dottedField (_fieldRef self)) 1 in
        if negb (ok logElement) then
          Some (mkStatus ErrorCodes.InternalError
                  "cannot create log entry for $pull mod", d, lb1)
        else
          let '(status, lb2) := addToUnsets lb1 logElement in
          Some (status, d, lb2)
      else
        (* Create the {<fieldname>: []} element, an empty array. *)
        let '(logElement, lb1) :=
          makeElementArray logBuilder (dottedField (_fieldRef self)) in
        if negb (ok logElement) then
          Some (mkStatus ErrorCodes.InternalError
                  "cannot create details for $pull mod", d, lb1)
        else
          match log_copy fuel d lb1 logElement
                  (leftChild d (PreparedState.elemFound st)) with
          | None => None
          | Some (Some status, lb2) => Some (status, d, lb2)
          | Some (None, lb2) =>
              let '(status, lb3) := addToSets lb2 logElement in
              Some (status, d, lb3)
          end
  end.
End Log.

(** Modelled from the spec: [LogBuilder] and the document it owns are not
    under src/.  The spec describes the accumulator as accepting "set field
    to value" and "unset field" entries: the model keeps the two sequences of
    entries, and the elements made in the log document, each one a field
    name with the value built so far.  [pushBack] appends a copy of the child
    to an array or object element and is refused for any other parent. *)

(** Modelled from the spec: the state of a [LogBuilder] that rejects nothing
    it is handed in order. *)
Record LogBuilder := mkLogBuilder {
  logElements : list BSONElement;
  sets : list BSONElement;
  unsets : list BSONElement
}.

(** Modelled from the spec: the creation of an element in the log document. *)
Definition LogBuilder_make (e : BSONElement) (lb : LogBuilder)
    : Element * LogBuilder :=
  (Some (length (logElements lb)),
   mkLogBuilder (logElements lb ++ [e]) (sets lb) (unsets lb)).

(** Modelled from the spec: an array or object value with one more field. *)
Definition appendField (child parent : BSONElement) : option BSONElement :=
  match snd parent with
  | VArray o => Some (fst parent, VArray (o ++ [child]))
  | VObject o => Some (fst parent, VObject (o ++ [child]))
  | _ => None
  end.

(** Modelled from the spec: [Element::pushBack] in the log document. *)
Definition LogBuilder_pushBack (lb : LogBuilder) (parent child : Element)
    : Status * LogBuilder :=
  match parent, child with
  | Some p, Some c =>
      match logElements lb !! p, logElements lb !! c with
      | Some pe, Some ce =>
          match appendField ce pe with
          | Some pe' =>
              (Status_OK,
               mkLogBuilder (<[p := pe']> (logElements lb)) (sets lb)
                 (unsets lb))
          | None =>
              (mkStatus ErrorCodes.IllegalOperation
                 "cannot add a child to a leaf", lb)
          end
      | _, _ => (mkStatus ErrorCodes.IllegalOperation "invalid element", lb)
      end
  | _, _ => (mkStatus ErrorCodes.IllegalOperation "invalid element", lb)
  end.

(** Modelled from the spec: [LogBuilder::addToSets]. *)
Definition LogBuilder_addToSets (lb : LogBuilder) (e : Element)
    : Status * LogBuilder :=
  match e ≫= (logElements lb !!.) with
  | Some entry =>
      (Status_OK, mkLogBuilder (logElements lb) (sets lb ++ [entry]) (unsets lb))
  | None => (mkStatus ErrorCodes.IllegalOperation "invalid element", lb)
  end.

(** Modelled from the spec: [LogBuilder::addToUnsets]. *)
Definition LogBuilder_addToUnsets (lb : LogBuilder) (e : Element)
    : Status * LogBuilder :=
  match e ≫= (logElements lb !!.) with
  | Some entry =>
      (Status_OK, mkLogBuilder (logElements lb) (sets lb) (unsets lb ++ [entry]))
  | None => (mkStatus ErrorCodes.IllegalOperation "invalid element", lb)
  end.

#[global] Instance LogBuilder_ops : LogBuilderOps LogBuilder := {
  makeElementInt lb name n := LogBuilder_make (name, VInt n) lb;
  makeElementArray lb name := LogBuilder_make (name, VArray []) lb;
  makeElementWithNewFieldName lb name e := LogBuilder_make (name, snd e) lb;
  pushBack := LogBuilder_pushBack;
  addToSets := LogBuilder_addToSets;
  addToUnsets := LogBuilder_addToUnsets
}.


(** ** [ModifierPull::ModifierPull] and [ModifierPull::init] *)

(** The default-constructed modifier. *)
Definition ModifierPull_new : ModifierPull :=
  mkModifierPull (mkFieldRef []) 0 BSONElement_EOO [] None false None.

(** Modelled from the spec: the segments of a non-empty dotted field name,
    cut at its dots. *)
Fixpoint splitAtDots (s : string) : list string :=
  match s with
  | EmptyString => [EmptyString]
  | String.String c rest =>
      if Ascii.eqb c (Ascii.ascii_of_nat 46) then EmptyString :: splitAtDots rest
      else
        match splitAtDots rest with
        | seg :: segs => String.String c seg :: segs
        | [] => [String.String c EmptyString]
        end
  end.

(** Modelled from the spec: [FieldRef::parse], which parses a dotted field
    name into its segments; the empty name has none. *)
Definition FieldRef_parse (dottedName : string) : FieldRef :=
  mkFieldRef
    (match dottedName with
     | EmptyString => []
     | _ => splitAtDots dottedName
     end).

(** Modelled from the spec: the scan of [fieldchecker::isPositional] over the
    segments from index [i] on, which counts the segments that are the
    positional placeholder "$" and keeps the index of the first one. *)
Fixpoint isPositional_loop (ps : list string) (i pos count : Z) : Z * Z :=
  match ps with
  | [] => (pos, count)
  | part :: rest =>
      if String.eqb part "$" then
        isPositional_loop rest (i + 1) (if count =? 0 then i else pos)
          (count + 1)
      else isPositional_loop rest (i + 1) pos count
  end.

(** Modelled from the spec: [fieldchecker::isPositional(fieldRef, &pos,
    &count)].  The result is the returned flag and the two out-parameters;
    [pos] keeps the value it had when no placeholder is found. *)
Definition isPositional (f : FieldRef) (pos : Z) : bool * Z * Z :=
  let '(pos', count) := isPositional_loop (parts f) 0 pos 0 in
  (0 <? count, pos', count).

(** Modelled from the spec: [BSONObj::firstElement], the EOO element for an
    empty object. *)
Definition firstElement (o : BSONObj) : BSONElement :=
  match o with
  | e :: _ => e
  | [] => BSONElement_EOO
  end.

Section Init.
(** Three collaborators of [init] that src/ does not contain are left open:
    the check that a path can be updated, the comparison operator that a
    field name denotes (0 when it denotes none), and the parser of match
    expressions, which gives either an error status or a predicate. *)
Variable isUpdatable : FieldRef → Status.
Variable getGtLtOp : BSONElement → Z.
Variable MatchExpressionParser_parse : BSONObj → Status + MatchExpression.

(** [ModifierPull::init]: the status returned and the modifier as the call
    leaves it. *)
Definition init (self : ModifierPull) (modExpr : BSONElement)
    : Status * ModifierPull :=
  (* Perform standard field name and updateable checks. *)
  let fieldRef := FieldRef_parse modExpr.1 in
  let self1 :=
    mkModifierPull fieldRef (_posDollar self) (_exprElt self) (_exprObj self)
      (_matchExpr self) (_matcherOnPrimitive self) (_preparedState self) in
  let status := isUpdatable fieldRef in
  if negb (isOK status) then (status, self1)
  else
    (* Get the index of a $-positional operator; ensure only one occurrence. *)
    let '(foundDollar, posDollar, foundCount) :=
      isPositional fieldRef (_posDollar self) in
    let self2 :=
      mkModifierPull fieldRef posDollar (_exprElt self) (_exprObj self)
        (_matchExpr self) (_matcherOnPrimitive self) (_preparedState self) in
    if foundDollar && (1 <? foundCount) then
      (mkStatus ErrorCodes.BadValue "too many positional($) elements found.",
       self2)
    else if bool_decide (typeOf modExpr.2 = Object) then
      let exprObj := embeddedObject modExpr in
      let matcherOnPrimitive := negb (getGtLtOp (firstElement exprObj) =? 0) in
      let exprObj' :=
        if matcherOnPrimitive then [(""%string, VObject exprObj)]
        else exprObj in
      match MatchExpressionParser_parse exprObj' with
      | inl parseStatus =>
          (parseStatus,
           mkModifierPull fieldRef posDollar modExpr exprObj'
             (_matchExpr self) matcherOnPrimitive (_preparedState self))
      | inr matchExpr =>
          (Status_OK,
           mkModifierPull fieldRef posDollar modExpr exprObj'
             (Some matchExpr) matcherOnPrimitive (_preparedState self))
      end
    else
      (Status_OK,
       mkModifierPull fieldRef posDollar modExpr (_exprObj self)
         (_matchExpr self) (_matcherOnPrimitive self) (_preparedState self)).
End Init.

(** ** Well-formed documents

    The arena of a document describes a forest: the children of an element
    are distinct, each of them names that element as its parent, and some
    measure [rank] grows from every parent to its child (in a document built
    from a BSON object the index itself will do, a parent being created
    before its children). *)

Definition wellFormedRep (rank : nat → nat) (d : Document) (i : nat)
    (rep : ElementRep) : bool :=
  bool_decide (NoDup (children rep))
  && forallb
       (λ k, match d !! k with
             | Some krep => bool_decide (parent krep = Some i)
             | None => false
             end)
       (children rep)
  && match parent rep with
     | Some p => (rank p <? rank i)%nat
     | None => true
     end.

Definition wellFormed (rank : nat → nat) (d : Document) : bool :=
  forallb (λ ir, wellFormedRep rank d ir.1 ir.2) (imap pair d).

(** ** The document { a: [1, 5, 2, 5], b: 7 } and modifiers on it *)

Definition leaf (name : string) (v : Value) (p : nat) : ElementRep :=
  mkRep name (typeOf v) (Some v) (Some p) [].

Definition sampleArray : Value :=
  VArray [("0"%string, VInt 1); ("1"%string, VInt 5);
          ("2"%string, VInt 2); ("3"%string, VInt 5)].

Definition sampleDoc : Document :=
  [ mkRep "" Object
      (Some (VObject [("a"%string, sampleArray); ("b"%string, VInt 7)]))
      None [1; 6]%nat;
    mkRep "a" Array (Some sampleArray) (Some 0%nat) [2; 3; 4; 5]%nat;
    leaf "0" (VInt 1) 1; leaf "1" (VInt 5) 1; leaf "2" (VInt 2) 1;
    leaf "3" (VInt 5) 1; leaf "b" (VInt 7) 0 ].

(** { $pull: { <path>: <literal> } } *)
Definition pullLiteral (path : list string) (posDollar : Z) (v : Value)
    : ModifierPull :=
  mkModifierPull (mkFieldRef path) posDollar
    (String.concat "." path, v) [] None false None.

(** { $pull: { a: { $gt: 3 } } }, with the predicate as the match engine
    would compile it. *)
Definition greaterThan3 : MatchExpression :=
  mkMatchExpression
    (λ o, match o with
          | [(_, VInt n)] => 3 <? n
          | _ => false
          end).

Definition pullGt3 : ModifierPull :=
  mkModifierPull (mkFieldRef ["a"%string]) 0
    ("a"%string, VObject [("$gt"%string, VInt 3)])
    [(""%string, VObject [("$gt"%string, VInt 3)])]
    (Some greaterThan3) true None.

Definition emptyLog : LogBuilder := mkLogBuilder [] [] [].

(** ** Vocabulary of the properties *)

(** What [wellFormed] decides. *)
Definition wfDoc (rank : nat → nat) (d : Document) : Prop :=
  ∀ i rep, d !! i = Some rep →
    NoDup (children rep)
    ∧ (∀ k, k ∈ children rep →
         ∃ krep, d !! k = Some krep ∧ parent krep = Some i)
    ∧ (∀ p, parent rep = Some p → (rank p < rank i)%nat).

Definition ranked (rank : nat → nat) (d : Document) : Prop :=
  ∀ i rep p, d !! i = Some rep → parent rep = Some p → (rank p < rank i)%nat.

(** [pulled rank a gone d d']: [d'] is [d] once the elements [gone],
    children of [a], are detached.  Names and types are those of [d]; only
    [a] loses children and only the detached elements lose their parent;
    values are kept everywhere below [a]. *)
Definition pulled (rank : nat → nat) (a : nat) (gone : list nat)
    (d d' : Document) : Prop :=
  length d' = length d
  ∧ ∀ j rep, d !! j = Some rep →
      ∃ rep', d' !! j = Some rep'
        ∧ repName rep' = repName rep
        ∧ repType rep' = repType rep
        ∧ children rep'
          = (if decide (j = a) then filter (λ x, x ∉ gone) (children rep)
             else children rep)
        ∧ parent rep' = (if decide (j ∈ gone) then None else parent rep)
        ∧ ((rank a < rank j)%nat → repValue rep' = repValue rep).

(** The children of [a] are distinct and name [a] as their parent. *)
Definition siblings (d : Document) (a : nat) : Prop :=
  ∀ arep, d !! a = Some arep →
    NoDup (children arep)
    ∧ ∀ k, k ∈ children arep →
        ∃ krep, d !! k = Some krep ∧ parent krep = Some a.

(** The children of [a] that the criterion selects, and those it does not. *)
Definition matching (self : ModifierPull) (d : Document) (l : list nat)
    : list nat :=
  filter (λ k, isMatch self d (Some k) = true) l.

Definition remaining (self : ModifierPull) (d : Document) (l : list nat)
    : list nat :=
  filter (λ k, isMatch self d (Some k) = false) l.

(** The descriptor once [prepare] has bound the positional field, whether
    it can be bound at all, and the outcome of resolving it. *)
Definition boundFieldRef (self : ModifierPull) (matchedField : string)
    : FieldRef :=
  if bool_decide (_posDollar self ≠ 0)
  then setPart (_fieldRef self) (_posDollar self) matchedField
  else _fieldRef self.

Definition bindable (self : ModifierPull) (matchedField : string) : Prop :=
  _posDollar self = 0 ∨ matchedField ≠ ""%string.

Definition resolve (self : ModifierPull) (matchedField : string)
    (d : Document) (root : Element) : Status * Z * Element :=
  findLongestPrefix (boundFieldRef self matchedField) d root 0 Document_end.


(** The entry that [log] adds to the unsets for a path. *)
Definition unsetEntry (f : FieldRef) : BSONElement := (dottedField f, VInt 1).

(** The value that [log] records for an array: the values of its children,
    in order, under empty names. *)
Definition loggedArray (d : Document) (a : Element) : Value :=
  VArray ((λ k, (""%string, (getValue d (Some k)).2)) <$> childrenOf d a).

(** [prepare] returns before it registers the path when the positional
    field cannot be bound, and when resolution fails otherwise than by not
    finding the path. *)
Definition returnsEarly (self : ModifierPull) (matchedField : string)
    (d : Document) (root : Element) : bool :=
  (bool_decide (_posDollar self ≠ 0) && String.eqb matchedField "")
  || (let status := (resolve self matchedField d root).1.1 in
      negb (bool_decide (code status = ErrorCodes.NonExistentPath))
      && negb (isOK status)).


(** { $pull: { a: 5 } } and the root of [sampleDoc]. *)
Definition pull5 : ModifierPull := pullLiteral ["a"%string] 0 (VInt 5).

Definition sampleRoot : Element := Some 0%nat.

(** The modifier { $pull: { a: 5 } } as [prepare] leaves it on [sampleDoc]. *)
Definition samplePrepared : ModifierPull :=
  set_prepared (mkFieldRef ["a"%string])
    (PreparedState.mk 0 (Some 1%nat) "" [Some 3%nat; Some 5%nat] false)
    pull5.



(** The prepared state of [samplePrepared]. *)
Definition sampleState : PreparedState.t :=
  PreparedState.mk 0 (Some 1%nat) "" [Some 3%nat; Some 5%nat] false.

(** { $pull: { a: { x: 1 } } }, with a predicate over objects that accepts
    every object. *)
Definition pullObjects : ModifierPull :=
  mkModifierPull (mkFieldRef ["a"%string]) 0
    ("a"%string, VObject [("x"%string, VInt 1)]) [("x"%string, VInt 1)]
    (Some (mkMatchExpression (λ _, true))) false None.

(** Collaborators for [init]: every path can be updated, "$gt" is the one
    comparison operator, and the parser compiles every non-empty object to
    [greaterThan3]. *)
Definition acceptAll (f : FieldRef) : Status := Status_OK.

Definition sampleGetGtLtOp (e : BSONElement) : Z :=
  if String.eqb e.1 "$gt" then 1 else 0.

Definition sampleParse (o : BSONObj) : Status + MatchExpression :=
  match o with
  | [] => inl (mkStatus ErrorCodes.BadValue "empty expression")
  | _ :: _ => inr greaterThan3
  end.

Definition sampleInit (modExpr : BSONElement) : Status * ModifierPull :=
  init acceptAll sampleGetGtLtOp sampleParse ModifierPull_new modExpr.

(** * Properties *)

(** ** The model at work on { a: [1, 5, 2, 5], b: 7 } *)

Example sampleDoc_wellFormed : wellFormed id sampleDoc = true.
Proof. reflexivity. Qed.

Example resolve_full :
  resolve pull5 "" sampleDoc sampleRoot = (Status_OK, 0, Some 1%nat).
Proof. reflexivity. Qed.

Example resolve_partial :
  resolve (pullLiteral ["a"; "9"; "x"]%string 0 (VInt 5)) "" sampleDoc
    sampleRoot
  = (Status_OK, 0, Some 1%nat).
Proof. reflexivity. Qed.

Example resolve_missing :
  code (resolve (pullLiteral ["c"; "x"]%string 0 (VInt 5)) "" sampleDoc
          sampleRoot).1.1
  = ErrorCodes.NonExistentPath.
Proof. reflexivity. Qed.

Example resolve_positional :
  resolve (pullLiteral ["a"; "$"]%string 1 (VInt 5)) "2" sampleDoc sampleRoot
  = (Status_OK, 1, Some 4%nat).
Proof. reflexivity. Qed.

Example prepare_pull5 :
  prepare 4 pull5 sampleDoc sampleRoot "" ExecInfo.new
  = Some (Status_OK, samplePrepared, sampleDoc,
          ExecInfo.mk (Some (mkFieldRef ["a"%string])) None false).
Proof. reflexivity. Qed.

(** { $pull: { a: { $gt: 3 } } } leaves [1, 2] under "a" and logs
    { $set: { a: [1, 2] } }; the array and the root have lost the value they
    were built from, the remaining elements have not. *)
Example pull_gt3 :
  ∃ self' d' lb',
    prepare 4 pullGt3 sampleDoc sampleRoot "" ExecInfo.new
    = Some (Status_OK, self', sampleDoc,
            ExecInfo.mk (Some (mkFieldRef ["a"%string])) None false)
    ∧ apply self' sampleDoc = Some (Status_OK, d')
    ∧ childrenOf d' (Some 1%nat) = [2; 4]%nat
    ∧ hasValue d' (Some 1%nat) = false
    ∧ hasValue d' sampleRoot = false
    ∧ getValue d' (Some 4%nat) = ("2"%string, VInt 2)
    ∧ log 4 self' d' emptyLog = Some (Status_OK, d', lb')
    ∧ sets lb' = [("a"%string, VArray [(""%string, VInt 1); (""%string, VInt 2)])]
    ∧ unsets lb' = [].
Proof. do 3 eexists. repeat split; reflexivity. Qed.

(** ** Reading a well-formed document *)

Section WellFormed.
Variable rank : nat → nat.

Lemma wellFormed_wfDoc d : wellFormed rank d = true → wfDoc rank d.
Proof.
  unfold wellFormed. rewrite forallb_forall. intros Hall i rep Hi.
  assert (Hin : In (i, rep) (imap pair d)).
  { apply list_elem_of_In, list_elem_of_lookup. exists i.
    by rewrite list_lookup_imap, Hi. }
  apply Hall in Hin. unfold wellFormedRep in Hin. simpl in Hin.
  apply andb_prop in Hin as [Hin Hrank].
  apply andb_prop in Hin as [Hnd Hkids].
  split; [by apply bool_decide_eq_true in Hnd|]. split.
  - intros k Hk. rewrite forallb_forall in Hkids.
    specialize (Hkids k (proj1 (list_elem_of_In _ _) Hk)).
    destruct (d !! k) as [krep|]; [|done].
    apply bool_decide_eq_true in Hkids. eauto.
  - intros p Hp. rewrite Hp in Hrank. by apply Nat.ltb_lt.
Qed.

Lemma wfDoc_child_rank d i rep k krep :
  wfDoc rank d → d !! i = Some rep → k ∈ children rep → d !! k = Some krep →
  parent krep = Some i ∧ (rank i < rank k)%nat.
Proof.
  intros Hwf Hi Hk Hkrep.
  destruct (Hwf i rep Hi) as (_ & Hkids & _).
  destruct (Hkids k Hk) as (krep' & Hk' & Hp).
  assert (krep' = krep) as -> by congruence.
  split; [done|]. by destruct (Hwf k krep Hkrep) as (_ & _ & Hr); apply Hr.
Qed.
Lemma wfDoc_siblings d a : wfDoc rank d → siblings d a.
Proof. intros Hwf arep Ha. destruct (Hwf a arep Ha) as (? & ? & _). done. Qed.
End WellFormed.

Lemma child_rank rank d c next :
  wfDoc rank d → next ∈ childrenOf d (Some c) → (rank c < rank next)%nat.
Proof.
  intros Hwf. unfold childrenOf, getRep.
  destruct (d !! c) as [crep|] eqn:Hc; [|set_solver].
  intros Hin. destruct (Hwf c crep Hc) as (_ & Hkids & _).
  destruct (Hkids next Hin) as (nrep & Hn & Hp).
  by destruct (Hwf next nrep Hn) as (_ & _ & Hr); apply Hr.
Qed.

Lemma nextAfter_NoDup (k : nat) (pre rest : list nat) :
  NoDup (pre ++ k :: rest) → nextAfter k (pre ++ k :: rest) = head rest.
Proof.
  induction pre as [|x pre IH]; simpl; intros Hnd.
  - by rewrite Nat.eqb_refl.
  - apply NoDup_cons in Hnd as [Hx Hnd].
    destruct (Nat.eqb_spec x k) as [->|_]; [|by apply IH].
    exfalso. apply Hx. set_solver.
Qed.

(** In a sequence of distinct children that name [a] as their parent, the
    right sibling of a child is the child that follows it. *)
Lemma rightSibling_next (d : Document) (a k : nat) (arep krep : ElementRep)
    (pre rest : list nat) :
  d !! a = Some arep → children arep = pre ++ k :: rest →
  NoDup (children arep) →
  d !! k = Some krep → parent krep = Some a →
  rightSibling d (Some k) = head rest.
Proof.
  intros Ha Hch Hnd Hk Hp. unfold rightSibling, childrenOf. simpl.
  rewrite Hk, Hp. simpl. rewrite Ha, Hch. apply nextAfter_NoDup.
  by rewrite <- Hch.
Qed.

(** The walk of [prepare] over a sequence of siblings collects, in order,
    those that match, provided the fuel covers the sequence. *)
Lemma prepare_walk_siblings (self : ModifierPull) (d : Document) (a : nat)
    (arep : ElementRep) :
  d !! a = Some arep → NoDup (children arep) →
  (∀ k, k ∈ children arep → ∃ krep, d !! k = Some krep ∧ parent krep = Some a) →
  ∀ rest pre fuel acc,
    children arep = pre ++ rest → (length rest ≤ fuel)%nat →
    prepare_walk fuel self d (head rest) acc
    = Some (acc ++ (Some <$> matching self d rest)).
Proof.
  intros Ha Hnd Hkids rest.
  induction rest as [|k rest IH]; intros pre fuel acc Hch Hfuel.
  - destruct fuel; simpl; by rewrite app_nil_r.
  - destruct fuel as [|fuel]; [simpl in Hfuel; lia|]. simpl in Hfuel.
    destruct (Hkids k) as (krep & Hk & Hp); [rewrite Hch; set_solver|].
    simpl. rewrite (rightSibling_next d a k arep krep pre rest) by done.
    rewrite (IH (pre ++ [k]) fuel); [|by rewrite <- app_assoc|lia].
    unfold matching. rewrite filter_cons.
    destruct (isMatch self d (Some k)); simpl; [|done].
    by rewrite <- app_assoc.
Qed.

(** ** Removing children of one element *)

Section Removal.
Variable rank : nat → nat.

Lemma wfDoc_ranked d : wfDoc rank d → ranked rank d.
Proof. intros Hwf i rep p Hi Hp. by apply (Hwf i rep Hi). Qed.

Lemma deserialize_length fuel : ∀ d e, length (deserialize fuel d e) = length d.
Proof.
  induction fuel as [|fuel IH]; intros d e; [done|]. simpl.
  destruct e as [i|]; [|done]. destruct (d !! i) as [rep|]; [|done].
  destruct (repValue rep); [|done]. by rewrite IH, length_alter.
Qed.

(** [deserialize] changes nothing but stored values. *)
Lemma deserialize_shape fuel : ∀ d e j rep,
  d !! j = Some rep →
  ∃ rep', deserialize fuel d e !! j = Some rep'
    ∧ repName rep' = repName rep ∧ repType rep' = repType rep
    ∧ children rep' = children rep ∧ parent rep' = parent rep.
Proof.
  induction fuel as [|fuel IH]; intros d e j rep Hj; [by eauto 10|]. simpl.
  destruct e as [i|]; [|by eauto 10].
  destruct (d !! i) as [irep|] eqn:Hi; [|by eauto 10].
  destruct (repValue irep); [|by eauto 10].
  destruct (decide (i = j)) as [->|Hne].
  - destruct (IH (alter clearValue j d) (parent irep) j (clearValue rep))
      as (rep' & ? & ? & ? & ? & ?); [|by eauto 10].
    by rewrite list_lookup_alter_eq, Hj.
  - apply IH. by rewrite list_lookup_alter_ne.
Qed.

(** [deserialize] climbs towards the root: it leaves alone every element
    that ranks above the one it starts from. *)
Lemma deserialize_above fuel j : ∀ d e,
  ranked rank d → (∀ i, e = Some i → (rank i < rank j)%nat) →
  deserialize fuel d e !! j = d !! j.
Proof.
  induction fuel as [|fuel IH]; intros d e Hr He; [done|]. simpl.
  destruct e as [i|]; [|done].
  destruct (d !! i) as [irep|] eqn:Hi; [|done].
  destruct (repValue irep); [|done].
  specialize (He i eq_refl).
  rewrite IH.
  - apply list_lookup_alter_ne. intros ->. lia.
  - intros i' rep' p Hi' Hp. destruct (decide (i = i')) as [->|Hne].
    + rewrite list_lookup_alter_eq, Hi in Hi'. simplify_eq/=. eauto.
    + rewrite list_lookup_alter_ne in Hi' by done. eauto.
  - intros p Hp. specialize (Hr i irep p Hi Hp). lia.
Qed.

Lemma filter_not_in_singleton (k : nat) (l : list nat) :
  filter (λ x, x ∉ [k]) l = filter (λ x, x ≠ k) l.
Proof. apply list_filter_iff. intros x. set_solver. Qed.

(** One [remove]. *)
Lemma remove_pulled d k krep a :
  ranked rank d → d !! k = Some krep → parent krep = Some a →
  pulled rank a [k] d (snd (remove d (Some k))).
Proof.
  intros Hr Hk Hp. unfold remove. rewrite Hk, Hp. simpl.
  set (d1 := alter (withoutChild k) a d).
  assert (Hr1 : ranked rank d1).
  { intros i rep p Hi Hpi. unfold d1 in Hi.
    destruct (decide (a = i)) as [->|Hne].
    - rewrite list_lookup_alter_eq in Hi.
      destruct (d !! i) as [r|] eqn:Hdi; simplify_eq/=. eauto.
    - rewrite list_lookup_alter_ne in Hi by done. eauto. }
  split.
  { rewrite length_alter, deserialize_length. apply length_alter. }
  intros j rep Hj.
  assert (Hj1 : d1 !! j
                = Some (if decide (j = a) then withoutChild k rep else rep)).
  { unfold d1. destruct (decide (j = a)) as [->|Hne].
    - by rewrite list_lookup_alter_eq, Hj.
    - by rewrite list_lookup_alter_ne. }
  destruct (deserialize_shape (length d1) d1 (Some a) j _ Hj1)
    as (rep2 & Hj2 & Hn2 & Ht2 & Hc2 & Hp2).
  assert (Hv2 : (rank a < rank j)%nat → repValue rep2 = repValue rep).
  { intros Hlt.
    rewrite (deserialize_above (length d1) j d1 (Some a)) in Hj2;
      [|done|by intros ? [= <-]].
    rewrite Hj1 in Hj2. rewrite decide_False in Hj2 by (intros ->; lia).
    by simplify_eq. }
  exists (if decide (j = k) then setParent None rep2 else rep2).
  split.
  { destruct (decide (j = k)) as [->|Hne].
    - by rewrite list_lookup_alter_eq, Hj2.
    - by rewrite list_lookup_alter_ne. }
  rewrite filter_not_in_singleton.
  repeat split.
  - destruct (decide (j = k)); simpl; rewrite Hn2; by destruct (decide (j = a)).
  - destruct (decide (j = k)); simpl; rewrite Ht2; by destruct (decide (j = a)).
  - destruct (decide (j = k)); simpl; rewrite Hc2; by destruct (decide (j = a)).
  - destruct (decide (j = k)) as [->|Hne]; simpl.
    + rewrite decide_True by set_solver. done.
    + rewrite decide_False by set_solver. rewrite Hp2.
      by destruct (decide (j = a)).
  - intros Hlt. destruct (decide (j = k)); simpl; auto.
Qed.

Lemma pulled_refl a d : pulled rank a [] d d.
Proof.
  split; [done|]. intros j rep Hj. exists rep.
  do 3 (split; [done|]). split; [|split; [|done]].
  - destruct (decide (j = a)); [|done].
    symmetry. induction (children rep) as [|x l IH]; [done|].
    rewrite filter_cons, decide_True by set_solver. by rewrite IH.
  - rewrite decide_False; [done|]. set_solver.
Qed.

Lemma pulled_trans a s1 s2 d d1 d2 :
  pulled rank a s1 d d1 → pulled rank a s2 d1 d2 → pulled rank a (s1 ++ s2) d d2.
Proof.
  intros [Hl1 H1] [Hl2 H2]. split; [congruence|]. intros j rep Hj.
  destruct (H1 j rep Hj) as (rep1 & Hj1 & Hn1 & Ht1 & Hc1 & Hp1 & Hv1).
  destruct (H2 j rep1 Hj1) as (rep2 & Hj2 & Hn2 & Ht2 & Hc2 & Hp2 & Hv2).
  exists rep2. split; [done|]. repeat split; try congruence.
  - rewrite Hc2, Hc1. destruct (decide (j = a)); [|done].
    rewrite list_filter_filter. apply list_filter_iff. intros x. set_solver.
  - rewrite Hp2, Hp1.
    destruct (decide (j ∈ s2)), (decide (j ∈ s1)), (decide (j ∈ s1 ++ s2));
      try done; set_solver.
  - intros Hlt. rewrite Hv2, Hv1; done.
Qed.

Lemma pulled_ranked a s d d' : pulled rank a s d d' → ranked rank d → ranked rank d'.
Proof.
  intros [Hl H] Hr i rep' p Hi Hp.
  destruct (d !! i) as [rep|] eqn:Hdi.
  - destruct (H i rep Hdi) as (rep'' & Hi' & _ & _ & _ & Hp' & _).
    assert (rep'' = rep') as -> by congruence.
    rewrite Hp in Hp'. destruct (decide (i ∈ s)); [done|]. eauto.
  - apply lookup_ge_None in Hdi. apply lookup_lt_Some in Hi. lia.
Qed.

(** The loop of [apply] over distinct children of [a]. *)
Lemma apply_loop_pulled a : ∀ s d,
  ranked rank d → NoDup s →
  (∀ k, k ∈ s → ∃ krep, d !! k = Some krep ∧ parent krep = Some a) →
  pulled rank a s d
    (fold_left (λ doc where_, snd (remove doc where_)) (Some <$> s) d).
Proof.
  induction s as [|k s IH]; intros d Hr Hnd Hs; [apply pulled_refl|].
  apply NoDup_cons in Hnd as [Hk Hnd].
  destruct (Hs k) as (krep & Hdk & Hp); [set_solver|].
  pose proof (remove_pulled d k krep a Hr Hdk Hp) as H1.
  simpl. change (k :: s) with ([k] ++ s).
  eapply pulled_trans; [exact H1|]. apply IH; [|done|].
  - by eapply pulled_ranked.
  - intros k' Hk'. destruct (Hs k') as (krep' & Hdk' & Hp'); [set_solver|].
    destruct H1 as [_ H1].
    destruct (H1 k' krep' Hdk') as (r & Hr' & _ & _ & _ & Hpr & _).
    exists r. split; [done|]. rewrite Hpr.
    rewrite decide_False; [done|]. set_solver.
Qed.
End Removal.

(** ** What a pull leaves unchanged *)

Section Frame.
Variable rank : nat → nat.
Variables (a : nat) (gone : list nat) (d d' : Document).
Hypothesis Hwf : wfDoc rank d.
Hypothesis Hpulled : pulled rank a gone d d'.

Lemma pulled_None j : d !! j = None → d' !! j = None.
Proof.
  destruct Hpulled as [Hl _]. rewrite !lookup_ge_None. lia.
Qed.

Lemma pulled_name j : repName <$> d' !! j = repName <$> d !! j.
Proof.
  destruct (d !! j) as [rep|] eqn:Hj.
  - destruct Hpulled as [_ H].
    destruct (H j rep Hj) as (rep' & -> & Hn & _). simpl. by rewrite Hn.
  - by rewrite pulled_None.
Qed.

Lemma pulled_getType e : getType d' e = getType d e.
Proof.
  unfold getType, getRep. destruct e as [j|]; [|done].
  destruct (d !! j) as [rep|] eqn:Hj.
  - destruct Hpulled as [_ H].
    destruct (H j rep Hj) as (rep' & -> & _ & Ht & _). done.
  - by rewrite pulled_None.
Qed.

Lemma pulled_childrenOf j : j ≠ a → childrenOf d' (Some j) = childrenOf d (Some j).
Proof.
  intros Hne. unfold childrenOf, getRep.
  destruct (d !! j) as [rep|] eqn:Hj.
  - destruct Hpulled as [_ H].
    destruct (H j rep Hj) as (rep' & -> & _ & _ & Hc & _).
    by rewrite Hc, decide_False.
  - by rewrite pulled_None.
Qed.

Lemma pulled_childrenOf_target :
  childrenOf d' (Some a) = filter (λ x, x ∉ gone) (childrenOf d (Some a)).
Proof.
  unfold childrenOf, getRep.
  destruct (d !! a) as [rep|] eqn:Hj.
  - destruct Hpulled as [_ H].
    destruct (H a rep Hj) as (rep' & -> & _ & _ & Hc & _).
    by rewrite Hc, decide_True.
  - by rewrite pulled_None.
Qed.

(** Below [a] an element is the same before and after. *)
Lemma pulled_below j :
  (rank a < rank j)%nat →
  getValue d' (Some j) = getValue d (Some j)
  ∧ getType d' (Some j) = getType d (Some j).
Proof.
  intros Hlt. split; [|apply pulled_getType].
  unfold getValue, getRep.
  destruct (d !! j) as [rep|] eqn:Hj.
  - destruct Hpulled as [_ H].
    destruct (H j rep Hj) as (rep' & -> & Hn & _ & _ & _ & Hv).
    by rewrite Hn, Hv.
  - by rewrite pulled_None.
Qed.

Lemma pulled_isMatch self j :
  (rank a < rank j)%nat → isMatch self d' (Some j) = isMatch self d (Some j).
Proof.
  intros Hlt. destruct (pulled_below j Hlt) as [Hv Ht].
  unfold isMatch, compareWithBSONElement, getValueObject.
  by rewrite Hv, Ht.
Qed.

Lemma find_ext {A} (f g : A → bool) (l : list A) :
  (∀ x, f x = g x) → List.find f l = List.find g l.
Proof.
  intros Hfg. induction l as [|x l IH]; [done|]. simpl.
  by rewrite Hfg, IH.
Qed.

Lemma find_elem_of {A} (f : A → bool) (l : list A) x :
  List.find f l = Some x → x ∈ l.
Proof.
  intros Hf. apply find_some in Hf as [Hin _]. by apply list_elem_of_In.
Qed.

Lemma stepInto_child c part next :
  stepInto d c part = (Some next, true) → next ∈ childrenOf d (Some c).
Proof.
  unfold stepInto, findFirstChildNamed, findNthChild.
  destruct (getType d (Some c)); try done.
  - intros [= Hf]. by eapply find_elem_of.
  - destruct (parseIndex part); [|done].
    intros [= Hn]. by eapply list_elem_of_lookup_2.
Qed.

Lemma stepInto_pulled c part :
  c ≠ a → stepInto d' c part = stepInto d c part.
Proof.
  intros Hne. unfold stepInto, findFirstChildNamed, findNthChild.
  rewrite pulled_getType, pulled_childrenOf by done.
  destruct (getType d (Some c)); try done.
  f_equal. apply find_ext. intros k.
  pose proof (pulled_name k) as Hk.
  destruct (d' !! k), (d !! k); simplify_eq/=; congruence.
Qed.

(** A path that resolves in full down to [a] never goes through [a] on the
    way, so it resolves to [a] after the pull as well. *)
Lemma prefixLoop_pulled : ∀ ps i c n prev,
  prefixLoop d ps i c = (n, prev, Some a, true) →
  prefixLoop d' ps i c = (n, prev, Some a, true)
  ∧ ((ps = [] ∧ c = a) ∨ (rank c < rank a)%nat).
Proof.
  induction ps as [|part rest IH]; intros i c n prev Hloop.
  - simpl in *. simplify_eq. auto.
  - simpl in Hloop. destruct (stepInto d c part) as [next viable] eqn:Hstep.
    destruct next as [next|], viable; simplify_eq.
    destruct (IH _ _ _ _ Hloop) as [Hloop' Hrank].
    pose proof (child_rank rank d c next Hwf (stepInto_child _ _ _ Hstep))
      as Hlt.
    assert (rank c < rank a)%nat as Hca.
    { destruct Hrank as [[_ ->]|Hr]; lia. }
    split; [|by right]. simpl.
    rewrite stepInto_pulled by (intros ->; lia). by rewrite Hstep.
Qed.

Lemma prefixLoop_partial : ∀ ps i c n prev viable,
  prefixLoop d ps i c = (n, prev, None, viable) → (n < i + length ps)%nat.
Proof.
  induction ps as [|part rest IH]; intros i c n prev viable Hloop.
  - simpl in Hloop. simplify_eq.
  - simpl in Hloop. destruct (stepInto d c part) as [next v] eqn:Hstep.
    destruct next as [next|], v; simplify_eq; simpl; try lia.
    apply IH in Hloop. lia.
Qed.

Lemma findLongestPrefix_pulled prefix root idx0 elem0 :
  findLongestPrefix prefix d root idx0 elem0
  = (Status_OK, numParts prefix - 1, Some a) →
  findLongestPrefix prefix d' root idx0 elem0
  = (Status_OK, numParts prefix - 1, Some a).
Proof.
  unfold findLongestPrefix. destruct root as [r|]; [|done].
  destruct (negb (hasChildren d (Some r)) || (numParts prefix =? 0)) eqn:Hempty;
    [done|].
  destruct (prefixLoop d (parts prefix) 0 r) as [[[n prev] curr] viable]
    eqn:Hloop.
  destruct n as [|i]; [done|]. destruct viable; [|by destruct curr].
  destruct curr as [curr|]; intros Heq; simplify_eq.
  - destruct (prefixLoop_pulled _ _ _ _ _ Hloop) as [Hloop' Hrank].
    assert (r ≠ a) as Hne.
    { destruct Hrank as [[Hnil _]|Hlt]; [|intros ->; lia].
      apply orb_false_elim in Hempty as [_ Hnum].
      unfold numParts in Hnum. rewrite Hnil in Hnum. done. }
    unfold hasChildren in *. rewrite pulled_childrenOf by done.
    rewrite Hempty, Hloop'. congruence.
  - apply prefixLoop_partial in Hloop. unfold numParts in *. lia.
Qed.
End Frame.

(** ** [prepare] *)

#[local] Arguments numParts : simpl never.
#[local] Arguments size_t_sub : simpl never.
#[local] Arguments dottedField : simpl never.

Lemma bindable_nonempty self matchedField :
  bindable self matchedField → bool_decide (_posDollar self ≠ 0) = true →
  String.eqb matchedField "" = false.
Proof.
  intros [Hz|Hne] Hpos.
  - apply bool_decide_eq_true in Hpos. done.
  - by apply String.eqb_neq.
Qed.

(** Binds the positional field in the goal, under [bindable]. *)
Ltac prepare_bind Hbind :=
  unfold prepare, resolve, boundFieldRef in *;
  let Hpos := fresh "Hpos" in
  destruct (bool_decide (_posDollar _ ≠ 0)) eqn:Hpos;
  [rewrite (bindable_nonempty _ _ Hbind Hpos)|];
  cbv beta iota zeta delta
    [PreparedState.new PreparedState.set_boundDollar PreparedState.idxFound
     PreparedState.elemFound].

Lemma resolve_OK_numParts prefix d root idx0 elem0 idx elem :
  findLongestPrefix prefix d root idx0 elem0 = (Status_OK, idx, elem) →
  1 <= numParts prefix.
Proof.
  unfold findLongestPrefix. destruct root as [r|]; [|done].
  destruct (numParts prefix =? 0) eqn:Hn.
  - by rewrite orb_true_r.
  - intros _. apply Z.eqb_neq in Hn. unfold numParts in *. lia.
Qed.

Lemma last_index_not_below n : 1 <= n → (n - 1 <? size_t_sub n 1) = false.
Proof.
  intros Hn. apply Z.ltb_ge. unfold size_t_sub.
  apply Z.mod_le; lia.
Qed.

(** claim C3: when the whole path resolves to an element that is not an
    array, [prepare] fails with [BadValue] (the spec's InvalidArgument) and
    the message "Cannot apply $pull to a non-array value", and sets the
    no-op flag neither in the prepared state nor in [execInfo]. *)
Theorem prepare_non_array fuel self d root matchedField execInfo a :
  bindable self matchedField →
  resolve self matchedField d root
  = (Status_OK, numParts (boundFieldRef self matchedField) - 1, Some a) →
  getType d (Some a) ≠ Array →
  ∃ self' st,
    prepare fuel self d root matchedField execInfo
    = Some (mkStatus ErrorCodes.BadValue
              "Cannot apply $pull to a non-array value",
            self', d,
            ExecInfo.set_fieldRef_0 (boundFieldRef self matchedField) execInfo)
    ∧ _preparedState self' = Some st
    ∧ PreparedState.noOp st = false
    ∧ PreparedState.elementsToRemove st = [].
Proof.
  intros Hbind Hres Htype.
  pose proof (resolve_OK_numParts _ _ _ _ _ _ _ Hres) as Hn.
  prepare_bind Hbind; rewrite Hres; simpl;
    rewrite (last_index_not_below _ Hn); simpl;
    rewrite bool_decide_eq_false_2 by done; simpl; eauto 10.
Qed.

Lemma numParts_setPart f i part : numParts (setPart f i part) = numParts f.
Proof. unfold numParts, setPart. simpl. by rewrite length_insert. Qed.

Lemma numParts_boundFieldRef self matchedField :
  numParts (boundFieldRef self matchedField) = numParts (_fieldRef self).
Proof.
  unfold boundFieldRef. destruct (bool_decide _); [|done].
  apply numParts_setPart.
Qed.

Lemma below_last_index idx n :
  1 <= n → n <= SIZE_MAX → idx < n - 1 → (idx <? size_t_sub n 1) = true.
Proof.
  intros H1 Hmax Hidx. apply Z.ltb_lt. unfold size_t_sub, SIZE_MAX in *.
  rewrite Z.mod_small; lia.
Qed.

Lemma log_unset_LogBuilder fuel self st d (lb : LogBuilder) :
  _preparedState self = Some st →
  negb (ok (PreparedState.elemFound st))
  || (PreparedState.idxFound st <? size_t_sub (numParts (_fieldRef self)) 1)
  = true →
  log fuel self d lb
  = Some (Status_OK, d,
          mkLogBuilder (logElements lb ++ [unsetEntry (_fieldRef self)])
            (sets lb) (unsets lb ++ [unsetEntry (_fieldRef self)])).
Proof.
  intros Hst Hcond. unfold log. rewrite Hst, Hcond. simpl.
  unfold LogBuilder_addToUnsets. simpl.
  rewrite lookup_app_r by done. by rewrite Nat.sub_diag.
Qed.

(** claim C2, as stated, fails: on { a: [1, 5, 2, 5], b: 7 } the path
    "b.x" resolves only to its proper prefix "b", where it stops at a number
    that cannot be entered; [prepare] then returns the error of the
    resolution, sets no no-op flag and leaves [execInfo] as it was. *)
Lemma prepare_blocked_prefix_fails :
  ∃ status self' st d' execInfo',
    prepare 0 (pullLiteral ["b"; "x"]%string 0 (VInt 5)) sampleDoc sampleRoot
      "" ExecInfo.new
    = Some (status, self', d', execInfo')
    ∧ code status = ErrorCodes.PathNotViable
    ∧ _preparedState self' = Some st
    ∧ PreparedState.elemFound st = Some 6%nat
    ∧ PreparedState.idxFound st < numParts (_fieldRef self') - 1
    ∧ PreparedState.noOp st = false
    ∧ execInfo' = ExecInfo.new.
Proof. do 5 eexists. repeat split; reflexivity. Qed.

(** claim C2, amended: when the resolution of the path reports that it does
    not exist at all, or succeeds having resolved only a proper prefix of
    the descriptor, [prepare] succeeds with the no-op flag set in the
    prepared state and in [execInfo], and [log], called without [apply],
    appends one unset entry for the dotted path and no set entry.  (A prefix
    that ends at a value that cannot be entered is not such a case: the
    resolution fails there.) *)
Theorem prepare_log_missing fuel fuel' self d root matchedField execInfo :
  bindable self matchedField →
  numParts (_fieldRef self) <= SIZE_MAX →
  (code (resolve self matchedField d root).1.1 = ErrorCodes.NonExistentPath
   ∨ ∃ idx elem,
       resolve self matchedField d root = (Status_OK, idx, elem)
       ∧ idx < numParts (_fieldRef self) - 1) →
  ∃ self' st,
    prepare fuel self d root matchedField execInfo
    = Some (Status_OK, self', d,
            ExecInfo.set_noOp true
              (ExecInfo.set_fieldRef_0 (boundFieldRef self matchedField)
                 execInfo))
    ∧ _preparedState self' = Some st
    ∧ PreparedState.noOp st = true
    ∧ ∀ lb : LogBuilder,
        ∃ lb', log fuel' self' d lb = Some (Status_OK, d, lb')
          ∧ unsets lb'
            = unsets lb ++ [unsetEntry (boundFieldRef self matchedField)]
          ∧ sets lb' = sets lb.
Proof.
  intros Hbind Hmax Hres.
  rewrite <- (numParts_boundFieldRef self matchedField) in Hmax, Hres.
  assert (∃ self' st,
    prepare fuel self d root matchedField execInfo
    = Some (Status_OK, self', d,
            ExecInfo.set_noOp true
              (ExecInfo.set_fieldRef_0 (boundFieldRef self matchedField)
                 execInfo))
    ∧ _preparedState self' = Some st
    ∧ _fieldRef self' = boundFieldRef self matchedField
    ∧ PreparedState.noOp st = true
    ∧ negb (ok (PreparedState.elemFound st))
      || (PreparedState.idxFound st
          <? size_t_sub (numParts (_fieldRef self')) 1) = true)
    as (self' & st & Hprep & Hst & Hfr & Hnoop & Hcond).
  { destruct Hres as [Hne|(idx & elem & Hres & Hidx)].
    - destruct (resolve self matchedField d root) as [[status idx] elem]
        eqn:Hres.
      simpl in Hne.
      prepare_bind Hbind; rewrite Hres; simpl;
        rewrite (bool_decide_eq_true_2 _ Hne); simpl; eauto 10.
    - pose proof (resolve_OK_numParts _ _ _ _ _ _ _ Hres) as Hn.
      pose proof (below_last_index _ _ Hn Hmax Hidx) as Hlt.
      prepare_bind Hbind; rewrite Hres; simpl; rewrite Hlt, orb_true_r;
        do 2 eexists; do 4 (split; [reflexivity|]); simpl;
        by rewrite Hlt, orb_true_r. }
  exists self', st. do 3 (split; [done|]). intros lb.
  rewrite (log_unset_LogBuilder fuel' self' st d lb Hst Hcond).
  rewrite Hfr. eauto.
Qed.

(** The outcome of [prepare] once the path has resolved in full to an
    array, given what the walk over its values selects. *)
Lemma prepare_array fuel self d root matchedField execInfo a toRemove :
  bindable self matchedField →
  resolve self matchedField d root
  = (Status_OK, numParts (boundFieldRef self matchedField) - 1, Some a) →
  getType d (Some a) = Array →
  (if hasChildren d (Some a)
   then prepare_walk fuel self d (leftChild d (Some a)) [] = Some toRemove
   else toRemove = []) →
  prepare fuel self d root matchedField execInfo
  = Some (Status_OK,
          set_prepared (boundFieldRef self matchedField)
            (PreparedState.mk
               (numParts (boundFieldRef self matchedField) - 1) (Some a)
               (if bool_decide (_posDollar self ≠ 0) then matchedField else "")
               toRemove (bool_decide (toRemove = [])))
            self,
          d,
          ExecInfo.mk (Some (boundFieldRef self matchedField))
            (ExecInfo.fieldRef_1 execInfo)
            (bool_decide (toRemove = []) || ExecInfo.noOp execInfo)).
Proof.
  intros Hbind Hres Htype Hwalk.
  pose proof (resolve_OK_numParts _ _ _ _ _ _ _ Hres) as Hn.
  prepare_bind Hbind; rewrite Hres; simpl;
    rewrite (last_index_not_below _ Hn); simpl;
    rewrite bool_decide_eq_true_2 by done; simpl;
    (destruct (hasChildren d (Some a)); simpl;
     [rewrite Hwalk; by destruct toRemove|by subst toRemove]).
Qed.

Lemma prepare_walk_children fuel self d a :
  siblings d a → (length (childrenOf d (Some a)) ≤ fuel)%nat →
  prepare_walk fuel self d (leftChild d (Some a)) []
  = Some (Some <$> matching self d (childrenOf d (Some a))).
Proof.
  intros Hsib Hfuel. unfold leftChild, childrenOf in *. simpl in *.
  destruct (d !! a) as [arep|] eqn:Ha; [|by destruct fuel].
  destruct (Hsib arep Ha) as (Hnd & Hkids).
  by rewrite (prepare_walk_siblings self d a arep Ha Hnd Hkids
                (children arep) [] fuel []).
Qed.

Lemma matching_nil self d l :
  (∀ k, k ∈ l → isMatch self d (Some k) = false) → matching self d l = [].
Proof.
  intros Hno. unfold matching. induction l as [|k l IH]; [done|].
  rewrite filter_cons, decide_False.
  - apply IH. intros k' Hk'. apply Hno. set_solver.
  - rewrite Hno by set_solver. done.
Qed.

(** claim C4: when the path resolves in full to an array that has no
    element, or none that satisfies the criterion, [prepare] succeeds with
    the no-op flag set in the prepared state and in [execInfo], and records
    nothing to remove. *)
Theorem prepare_nothing_to_pull rank fuel self d root matchedField execInfo a :
  bindable self matchedField →
  resolve self matchedField d root
  = (Status_OK, numParts (boundFieldRef self matchedField) - 1, Some a) →
  getType d (Some a) = Array →
  (childrenOf d (Some a) = []
   ∨ (wellFormed rank d = true
      ∧ (length (childrenOf d (Some a)) ≤ fuel)%nat
      ∧ ∀ k, k ∈ childrenOf d (Some a) → isMatch self d (Some k) = false)) →
  ∃ self' st,
    prepare fuel self d root matchedField execInfo
    = Some (Status_OK, self', d,
            ExecInfo.set_noOp true
              (ExecInfo.set_fieldRef_0 (boundFieldRef self matchedField)
                 execInfo))
    ∧ _preparedState self' = Some st
    ∧ PreparedState.noOp st = true
    ∧ PreparedState.elementsToRemove st = [].
Proof.
  intros Hbind Hres Htype Hcase.
  rewrite (prepare_array fuel self d root matchedField execInfo a []);
    try done.
  - eauto 10.
  - unfold hasChildren. destruct Hcase as [->|(Hwf & Hfuel & Hno)]; [done|].
    destruct (childrenOf d (Some a)) eqn:Hch; [done|]. rewrite <- Hch in *.
    rewrite prepare_walk_children
      by eauto using wfDoc_siblings, wellFormed_wfDoc.
    by rewrite matching_nil.
Qed.

(** ** [apply] and [log] after a pull *)

Lemma filter_not_matching self d (l : list nat) :
  filter (λ x, x ∉ matching self d l) l = remaining self d l.
Proof.
  unfold matching, remaining.
  assert (∀ l0 : list nat, (∀ x, x ∈ l0 → x ∈ l) →
    filter (λ x, x ∉ filter (λ k, isMatch self d (Some k) = true) l) l0
    = filter (λ k, isMatch self d (Some k) = false) l0) as Hgen.
  { induction l0 as [|x l0 IH]; intros Hsub; [done|].
    rewrite !filter_cons, IH by set_solver.
    destruct (isMatch self d (Some x)) eqn:Hx.
    - rewrite decide_False, decide_False; [done|done|].
      intros Hnot. apply Hnot, list_elem_of_filter. set_solver.
    - rewrite decide_True, decide_True; [done|done|].
      rewrite list_elem_of_filter. intros [Hm _]. congruence. }
  by apply Hgen.
Qed.

Lemma pulled_siblings rank a gone d d' :
  wfDoc rank d → pulled rank a gone d d' → siblings d' a.
Proof.
  intros Hwf [Hl Hp] arep' Ha'.
  destruct (d !! a) as [arep|] eqn:Ha.
  2:{ apply lookup_ge_None in Ha. apply lookup_lt_Some in Ha'. lia. }
  destruct (Hwf a arep Ha) as (Hnd & Hkids & _).
  destruct (Hp a arep Ha) as (arep'' & Ha'' & _ & _ & Hc & _).
  assert (arep'' = arep') as -> by congruence.
  rewrite decide_True in Hc by done. rewrite Hc. split.
  - by apply NoDup_filter.
  - intros k [Hgone Hk]%list_elem_of_filter.
    destruct (Hkids k Hk) as (krep & Hdk & Hpar).
    destruct (Hp k krep Hdk) as (krep' & Hdk' & _ & _ & _ & Hpar' & _).
    exists krep'. split; [done|]. by rewrite Hpar', decide_False.
Qed.

(** The copying loop of [log], run on the modelled log builder over a
    sequence of siblings, appends their values to the array under
    construction and touches neither the sets nor the unsets. *)
Lemma log_copy_LogBuilder (d : Document) (a : nat) (arep : ElementRep)
    (name : string) (p : nat) :
  d !! a = Some arep → NoDup (children arep) →
  (∀ k, k ∈ children arep → ∃ krep, d !! k = Some krep ∧ parent krep = Some a) →
  ∀ rest pre fuel (lb : LogBuilder) items,
    children arep = pre ++ rest → (length rest ≤ fuel)%nat →
    logElements lb !! p = Some (name, VArray items) →
    ∃ lb', log_copy fuel d lb (Some p) (head rest) = Some (None, lb')
      ∧ logElements lb' !! p
        = Some (name,
                VArray (items
                        ++ ((λ k, (""%string, (getValue d (Some k)).2))
                            <$> rest)))
      ∧ sets lb' = sets lb ∧ unsets lb' = unsets lb.
Proof.
  intros Ha Hnd Hkids rest.
  induction rest as [|k rest IH]; intros pre fuel lb items Hch Hfuel Hp.
  - exists lb. destruct fuel; simpl; by rewrite app_nil_r.
  - destruct fuel as [|fuel]; [simpl in Hfuel; lia|]. simpl in Hfuel.
    destruct (Hkids k) as (krep & Hk & Hpar); [rewrite Hch; set_solver|].
    pose proof (lookup_lt_Some _ _ _ Hp) as Hlt.
    set (c := (""%string, (getValue d (Some k)).2)).
    set (lb2 := mkLogBuilder
                  (<[p := (name, VArray (items ++ [c]))]>
                     (logElements lb ++ [c]))
                  (sets lb) (unsets lb)).
    destruct (IH (pre ++ [k]) fuel lb2 (items ++ [c]))
      as (lb' & Hcopy & Hitems & Hsets & Hunsets).
    { by rewrite <- app_assoc. }
    { lia. }
    { simpl. apply list_lookup_insert_eq. rewrite length_app. simpl. lia. }
    exists lb'. split; [|split; [|done]].
    + simpl. unfold LogBuilder_pushBack. simpl.
      rewrite lookup_app_l, Hp by done.
      rewrite lookup_app_r, Nat.sub_diag by done. simpl.
      rewrite (rightSibling_next d a k arep krep pre rest) by done.
      exact Hcopy.
    + rewrite Hitems. simpl. by rewrite <- app_assoc.
Qed.

(** [log] on a fully resolved path records the array as it stands. *)
Lemma log_set_LogBuilder fuel self st d a (lb : LogBuilder) :
  siblings d a →
  _preparedState self = Some st →
  PreparedState.elemFound st = Some a →
  PreparedState.idxFound st = numParts (_fieldRef self) - 1 →
  1 <= numParts (_fieldRef self) →
  (length (childrenOf d (Some a)) ≤ fuel)%nat →
  ∃ lb', log fuel self d lb = Some (Status_OK, d, lb')
    ∧ sets lb'
      = sets lb ++ [(dottedField (_fieldRef self), loggedArray d (Some a))]
    ∧ unsets lb' = unsets lb.
Proof.
  intros Hwf Hst Helem Hidx Hn Hfuel. unfold log.
  rewrite Hst, Helem, Hidx, (last_index_not_below _ Hn). simpl.
  set (name := dottedField (_fieldRef self)).
  set (p := length (logElements lb)).
  set (lb1 := mkLogBuilder (logElements lb ++ [(name, VArray [])])
                (sets lb) (unsets lb)).
  assert (Hp : logElements lb1 !! p = Some (name, VArray [])).
  { simpl. by rewrite lookup_app_r, Nat.sub_diag. }
  assert (∃ lb2, log_copy fuel d lb1 (Some p) (leftChild d (Some a))
                 = Some (None, lb2)
            ∧ logElements lb2 !! p = Some (name, loggedArray d (Some a))
            ∧ sets lb2 = sets lb ∧ unsets lb2 = unsets lb)
    as (lb2 & Hcopy & Hp2 & Hsets & Hunsets).
  { unfold leftChild, loggedArray, childrenOf in *. simpl in *.
    destruct (d !! a) as [arep|] eqn:Ha.
    - destruct (Hwf arep Ha) as (Hnd & Hkids).
      destruct (log_copy_LogBuilder d a arep name p Ha Hnd Hkids
                  (children arep) [] fuel lb1 []) as (lb2 & ? & ? & ? & ?);
        eauto.
    - exists lb1. by destruct fuel. }
  rewrite Hcopy. unfold addToSets. simpl. unfold LogBuilder_addToSets.
  simpl. rewrite Hp2. eexists. split; [reflexivity|]. simpl.
  by rewrite Hsets, Hunsets.
Qed.

Lemma apply_prepared self st d :
  _preparedState self = Some st →
  apply self d
  = Some (Status_OK,
          fold_left (λ doc where_, snd (remove doc where_))
            (PreparedState.elementsToRemove st) d).
Proof. intros Hst. unfold apply. by rewrite Hst. Qed.

(** [apply] after a [prepare] that selected the matching children of [a]. *)
Lemma apply_matching_pulled rank self d a :
  wfDoc rank d →
  pulled rank a (matching self d (childrenOf d (Some a))) d
    (fold_left (λ doc where_, snd (remove doc where_))
       (Some <$> matching self d (childrenOf d (Some a))) d).
Proof.
  intros Hwf. apply apply_loop_pulled.
  - by apply wfDoc_ranked.
  - unfold childrenOf, getRep. destruct (d !! a) as [arep|] eqn:Ha.
    + apply NoDup_filter. by destruct (Hwf a arep Ha).
    + apply NoDup_nil_2.
  - intros k [_ Hk]%list_elem_of_filter. unfold childrenOf, getRep in Hk.
    destruct (d !! a) as [arep|] eqn:Ha; [|set_solver].
    destruct (Hwf a arep Ha) as (_ & Hkids & _). auto.
Qed.

Lemma matching_exists self d l k :
  k ∈ l → isMatch self d (Some k) = true → matching self d l ≠ [].
Proof.
  intros Hk Hm Hnil.
  assert (k ∈ matching self d l) as Hin by (apply list_elem_of_filter; done).
  rewrite Hnil in Hin. set_solver.
Qed.

(** claim C1: when the path resolves in full to an array of which at least
    one element satisfies the criterion, [prepare] succeeds without the no-op
    flag; [apply] then leaves under the array exactly the elements that do
    not satisfy the criterion, in their original order and with their
    values; and [log] then appends to the sets one entry, named by the
    dotted path, whose value is the array of the values of the remaining
    elements under empty names, and appends nothing to the unsets. *)
Theorem pull_apply_log rank fuel self d root matchedField execInfo a :
  wellFormed rank d = true →
  bindable self matchedField →
  resolve self matchedField d root
  = (Status_OK, numParts (boundFieldRef self matchedField) - 1, Some a) →
  getType d (Some a) = Array →
  (length (childrenOf d (Some a)) ≤ fuel)%nat →
  (∃ k, k ∈ childrenOf d (Some a) ∧ isMatch self d (Some k) = true) →
  ∃ self' st d',
    prepare fuel self d root matchedField execInfo
    = Some (Status_OK, self', d,
            ExecInfo.set_fieldRef_0 (boundFieldRef self matchedField) execInfo)
    ∧ _preparedState self' = Some st
    ∧ PreparedState.noOp st = false
    ∧ PreparedState.elementsToRemove st
      = Some <$> matching self d (childrenOf d (Some a))
    ∧ apply self' d = Some (Status_OK, d')
    ∧ childrenOf d' (Some a) = remaining self d (childrenOf d (Some a))
    ∧ (∀ k, k ∈ childrenOf d' (Some a) →
         getValue d' (Some k) = getValue d (Some k))
    ∧ ∀ lb : LogBuilder,
        ∃ lb', log fuel self' d' lb = Some (Status_OK, d', lb')
          ∧ sets lb'
            = sets lb ++ [(dottedField (boundFieldRef self matchedField),
                           loggedArray d' (Some a))]
          ∧ unsets lb' = unsets lb.
Proof.
  intros Hwfb Hbind Hres Htype Hfuel (k0 & Hk0 & Hm0).
  pose proof (wellFormed_wfDoc rank d Hwfb) as Hwf.
  pose proof (resolve_OK_numParts _ _ _ _ _ _ _ Hres) as Hn.
  set (kids := childrenOf d (Some a)) in *.
  pose proof (matching_exists self d kids k0 Hk0 Hm0) as Hsome.
  pose proof (apply_matching_pulled rank self d a Hwf) as Hpulled.
  fold kids in Hpulled.
  set (d' := fold_left _ _ d) in Hpulled.
  assert (Hkids' : childrenOf d' (Some a) = remaining self d kids).
  { rewrite (pulled_childrenOf_target rank a _ d d' Hpulled).
    apply filter_not_matching. }
  assert (Hne : bool_decide (Some <$> matching self d kids = []) = false).
  { apply bool_decide_eq_false_2. by destruct (matching self d kids). }
  assert (Hprep := prepare_array fuel self d root matchedField execInfo a
                     (Some <$> matching self d kids) Hbind Hres Htype).
  rewrite Hne in Hprep. simpl in Hprep.
  eexists _, _, d'. split.
  { apply Hprep. destruct (hasChildren d (Some a)) eqn:Hhas.
    - by apply prepare_walk_children; [apply (wfDoc_siblings rank)|].
    - unfold hasChildren in Hhas. fold kids in Hhas.
      destruct kids; [done|discriminate]. }
  simpl. split; [done|].
  do 2 (split; [done|]). split; [done|]. split; [exact Hkids'|]. split.
  { intros k Hk. rewrite Hkids' in Hk. unfold remaining in Hk.
    apply list_elem_of_filter in Hk as [_ Hk].
    apply (pulled_below rank a _ d d' Hpulled).
    by apply (child_rank rank d a k Hwf). }
  intros lb.
  pose (st := PreparedState.mk
                (numParts (boundFieldRef self matchedField) - 1) (Some a)
                (if bool_decide (_posDollar self ≠ 0)
                 then matchedField else "")
                (Some <$> matching self d kids) false).
  destruct (log_set_LogBuilder fuel
              (set_prepared (boundFieldRef self matchedField) st self)
              st d' a lb) as (lb' & Hlog & Hsets & Hunsets);
    try done.
  - by apply (pulled_siblings rank a (matching self d kids) d d').
  - rewrite Hkids'. unfold remaining.
    etransitivity; [apply length_filter|done].
  - eauto.
Qed.

(** ** Pulling twice *)

Lemma prepare_resolved_array fuel self d root matchedField execInfo a :
  siblings d a →
  bindable self matchedField →
  resolve self matchedField d root
  = (Status_OK, numParts (boundFieldRef self matchedField) - 1, Some a) →
  getType d (Some a) = Array →
  (length (childrenOf d (Some a)) ≤ fuel)%nat →
  let toRemove := Some <$> matching self d (childrenOf d (Some a)) in
  prepare fuel self d root matchedField execInfo
  = Some (Status_OK,
          set_prepared (boundFieldRef self matchedField)
            (PreparedState.mk
               (numParts (boundFieldRef self matchedField) - 1) (Some a)
               (if bool_decide (_posDollar self ≠ 0) then matchedField else "")
               toRemove (bool_decide (toRemove = [])))
            self,
          d,
          ExecInfo.mk (Some (boundFieldRef self matchedField))
            (ExecInfo.fieldRef_1 execInfo)
            (bool_decide (toRemove = []) || ExecInfo.noOp execInfo)).
Proof.
  intros Hsib Hbind Hres Htype Hfuel toRemove.
  apply prepare_array; try done.
  destruct (hasChildren d (Some a)) eqn:Hhas.
  - by apply prepare_walk_children.
  - unfold hasChildren in Hhas. unfold toRemove.
    destruct (childrenOf d (Some a)); [done|discriminate].
Qed.

Lemma boundFieldRef_again self matchedField st :
  boundFieldRef
    (set_prepared (boundFieldRef self matchedField) st self) matchedField
  = boundFieldRef self matchedField.
Proof.
  unfold boundFieldRef. simpl. destruct (bool_decide _); [|done].
  unfold setPart. simpl. by rewrite list_insert_insert_eq.
Qed.

(** claim C8: after a [prepare] that found elements to pull and the [apply]
    that follows it, a second [prepare] of the same modifier on the
    resulting document succeeds with the no-op flag set in the prepared
    state and in [execInfo]: it records nothing to remove, because no
    element left in the array satisfies the criterion. *)
Theorem pull_twice_noop rank fuel self d root matchedField execInfo execInfo2 a :
  wellFormed rank d = true →
  bindable self matchedField →
  resolve self matchedField d root
  = (Status_OK, numParts (boundFieldRef self matchedField) - 1, Some a) →
  getType d (Some a) = Array →
  (length (childrenOf d (Some a)) ≤ fuel)%nat →
  (∃ k, k ∈ childrenOf d (Some a) ∧ isMatch self d (Some k) = true) →
  ∃ self' st d',
    prepare fuel self d root matchedField execInfo
    = Some (Status_OK, self', d,
            ExecInfo.set_fieldRef_0 (boundFieldRef self matchedField) execInfo)
    ∧ _preparedState self' = Some st
    ∧ PreparedState.noOp st = false
    ∧ apply self' d = Some (Status_OK, d')
    ∧ (∀ k, k ∈ childrenOf d' (Some a) → isMatch self' d' (Some k) = false)
    ∧ ∃ self'' st'',
        prepare fuel self' d' root matchedField execInfo2
        = Some (Status_OK, self'', d',
                ExecInfo.set_noOp true
                  (ExecInfo.set_fieldRef_0 (boundFieldRef self matchedField)
                     execInfo2))
        ∧ _preparedState self'' = Some st''
        ∧ PreparedState.noOp st'' = true
        ∧ PreparedState.elementsToRemove st'' = [].
Proof.
  intros Hwfb Hbind Hres Htype Hfuel (k0 & Hk0 & Hm0).
  pose proof (wellFormed_wfDoc rank d Hwfb) as Hwf.
  set (kids := childrenOf d (Some a)) in *.
  set (fr := boundFieldRef self matchedField) in *.
  pose proof (matching_exists self d kids k0 Hk0 Hm0) as Hsome.
  assert (Hne : bool_decide (Some <$> matching self d kids = []) = false).
  { apply bool_decide_eq_false_2. by destruct (matching self d kids). }
  pose proof (prepare_resolved_array fuel self d root matchedField execInfo a
                (wfDoc_siblings rank d a Hwf) Hbind Hres Htype Hfuel) as Hprep.
  simpl in Hprep. fold kids in Hprep. rewrite Hne in Hprep. simpl in Hprep.
  set (st := PreparedState.mk (numParts fr - 1) (Some a)
               (if bool_decide (_posDollar self ≠ 0) then matchedField else "")
               (Some <$> matching self d kids) false) in Hprep.
  set (self' := set_prepared fr st self) in *.
  pose proof (apply_matching_pulled rank self d a Hwf) as Hpulled.
  fold kids in Hpulled.
  set (d' := fold_left _ _ d) in Hpulled.
  assert (Hkids' : childrenOf d' (Some a) = remaining self d kids).
  { rewrite (pulled_childrenOf_target rank a _ d d' Hpulled).
    apply filter_not_matching. }
  assert (Hnone : ∀ k, k ∈ childrenOf d' (Some a) →
                       isMatch self' d' (Some k) = false).
  { intros k Hk. rewrite Hkids' in Hk. unfold remaining in Hk.
    apply list_elem_of_filter in Hk as [Hno Hk].
    change (isMatch self' d' (Some k)) with (isMatch self d' (Some k)).
    rewrite (pulled_isMatch rank a _ d d' Hpulled); [done|].
    by apply (child_rank rank d a k Hwf). }
  exists self', st, d'. split; [exact Hprep|].
  do 2 (split; [done|]). split; [done|]. split; [exact Hnone|].
  pose proof (prepare_resolved_array fuel self' d' root matchedField execInfo2 a)
    as Hprep2.
  assert (Hfr : boundFieldRef self' matchedField = fr)
    by apply boundFieldRef_again.
  simpl in Hprep2. rewrite Hfr in Hprep2.
  rewrite (matching_nil self' d' _ Hnone) in Hprep2. simpl in Hprep2.
  eexists _, _. split; [apply Hprep2|done].
  - by apply (pulled_siblings rank a (matching self d kids) d d').
  - exact Hbind.
  - unfold resolve. rewrite Hfr.
    by apply (findLongestPrefix_pulled rank a (matching self d kids) d d').
  - by rewrite (pulled_getType rank a _ d d' Hpulled).
  - rewrite Hkids'. unfold remaining.
    etransitivity; [apply length_filter|done].
Qed.

(** ** What [prepare] writes to [execInfo] *)

(** claim C5, as stated, fails: with a positional field and no matched
    field, [prepare] returns [BadValue] and leaves both slots of [execInfo]
    as they were, the path slot still null. *)
Lemma prepare_unbound_writes_nothing :
  ∃ status self' d' execInfo',
    prepare 0 (pullLiteral ["a"; "$"]%string 1 (VInt 5)) sampleDoc
      (Some 0%nat) "" ExecInfo.new
    = Some (status, self', d', execInfo')
    ∧ code status = ErrorCodes.BadValue
    ∧ ExecInfo.fieldRef_0 execInfo' = None.
Proof. do 4 eexists. split; [reflexivity|]. split; reflexivity. Qed.

(** claim C5, amended: when [prepare] returns early (the positional field
    cannot be bound, or resolution fails otherwise than by not finding the
    path) it returns an error and leaves [execInfo] as it was; on every
    other return the first path slot holds the bound descriptor, the second
    is as it was, and the no-op slot is true if [prepare] decided on a no-op
    and as it was if not. *)
Theorem prepare_execInfo_slots fuel self d root matchedField execInfo
    status self' d' execInfo' :
  prepare fuel self d root matchedField execInfo
  = Some (status, self', d', execInfo') →
  ∃ st, _preparedState self' = Some st
    ∧ if returnsEarly self matchedField d root
      then execInfo' = execInfo ∧ isOK status = false
      else ExecInfo.fieldRef_0 execInfo'
           = Some (boundFieldRef self matchedField)
           ∧ ExecInfo.fieldRef_1 execInfo' = ExecInfo.fieldRef_1 execInfo
           ∧ ExecInfo.noOp execInfo'
             = PreparedState.noOp st || ExecInfo.noOp execInfo.
Proof.
  unfold prepare, returnsEarly, resolve, boundFieldRef.
  destruct (bool_decide (_posDollar self ≠ 0)) eqn:Hpos; simpl.
  - destruct (String.eqb matchedField "") eqn:Hmf; simpl.
    { intros [= <- <- <- <-]. eauto. }
    destruct (findLongestPrefix _ d root 0 Document_end)
      as [[st0 idx] elem] eqn:Hres; simpl.
    destruct (bool_decide (code st0 = ErrorCodes.NonExistentPath)); simpl.
    + intros [= <- <- <- <-]. simpl. eauto 10.
    + destruct (isOK st0) eqn:Hok; simpl.
      2:{ intros [= <- <- <- <-]. eauto. }
      repeat case_match; intros; simplify_eq/=; eauto 10.
  - destruct (findLongestPrefix _ d root 0 Document_end)
      as [[st0 idx] elem] eqn:Hres; simpl.
    destruct (bool_decide (code st0 = ErrorCodes.NonExistentPath)); simpl.
    + intros [= <- <- <- <-]. simpl. eauto 10.
    + destruct (isOK st0) eqn:Hok; simpl.
      2:{ intros [= <- <- <- <-]. eauto. }
      repeat case_match; intros; simplify_eq/=; eauto 10.
Qed.

(** ** The statuses of [log] *)





(** ** Literal equality *)

(** claim C7: without a compiled predicate and with the criterion 5, an
    integer, [isMatch] accepts an element whose value is the integer 5,
    whatever its field name, and rejects an element whose value is the
    string "5" or a double, 5.0 included. *)
Theorem isMatch_literal_type_aware self d element rep :
  _matchExpr self = None →
  (_exprElt self).2 = VInt 5 →
  getRep d element = Some rep →
  (repValue rep = Some (VInt 5) → isMatch self d element = true)
  ∧ (repValue rep = Some (VString "5") → isMatch self d element = false)
  ∧ (∀ x, repValue rep = Some (VDouble x) → isMatch self d element = false).
Proof.
  intros Hmode Hexpr Hrep.
  unfold isMatch, compareWithBSONElement, woCompare, getValue.
  rewrite Hmode, Hrep, Hexpr. simpl.
  repeat split; [intros ->|intros ->|intros x ->]; done.
Qed.

(** ** The target document *)

(** claim C9: [prepare] and [log] return the target document as they
    received it, whatever their outcome; [log] writes to the log builder
    only. *)
Theorem prepare_log_keep_document {L} {ops : LogBuilderOps L} fuel self d root
    matchedField execInfo (lb : L) :
  (∀ status self' d' execInfo',
     prepare fuel self d root matchedField execInfo
     = Some (status, self', d', execInfo') → d' = d)
  ∧ (∀ status d' lb', log fuel self d lb = Some (status, d', lb') → d' = d).
Proof.
  split.
  - unfold prepare. intros status self' d' execInfo'.
    repeat case_match; intros; by simplify_eq.
  - unfold log. intros status d' lb'.
    repeat case_match; intros; by simplify_eq.
Qed.

(** claim C10: [apply], on any prepared state, returns OK and leaves the
    document that results from removing each recorded element in turn; the
    status of a removal does not change what [apply] returns. *)
Theorem apply_returns_OK self st d :
  _preparedState self = Some st →
  ∃ d', apply self d = Some (Status_OK, d')
    ∧ d' = fold_left (λ doc where_, (remove doc where_).2)
             (PreparedState.elementsToRemove st) d
    ∧ length d' = length d.
Proof.
  intros Hst. rewrite (apply_prepared self st d Hst).
  eexists. split; [reflexivity|]. split; [reflexivity|].
  generalize (PreparedState.elementsToRemove st). intros l. revert d.
  induction l as [|e l IH]; intros d; [done|]. simpl. rewrite IH.
  unfold remove. repeat case_match; try done. simpl.
  rewrite length_alter, deserialize_length. apply length_alter.
Qed.

(** ** The properties at work on { a: [1, 5, 2, 5], b: 7 } *)

Lemma pull_apply_log_witness :
  ∃ self' st d',
    prepare 4 pull5 sampleDoc sampleRoot "" ExecInfo.new
    = Some (Status_OK, self', sampleDoc,
            ExecInfo.set_fieldRef_0 (boundFieldRef pull5 "") ExecInfo.new)
    ∧ _preparedState self' = Some st
    ∧ PreparedState.noOp st = false
    ∧ PreparedState.elementsToRemove st
      = Some <$> matching pull5 sampleDoc (childrenOf sampleDoc (Some 1%nat))
    ∧ apply self' sampleDoc = Some (Status_OK, d')
    ∧ childrenOf d' (Some 1%nat)
      = remaining pull5 sampleDoc (childrenOf sampleDoc (Some 1%nat))
    ∧ (∀ k, k ∈ childrenOf d' (Some 1%nat) →
         getValue d' (Some k) = getValue sampleDoc (Some k))
    ∧ ∀ lb : LogBuilder,
        ∃ lb', log 4 self' d' lb = Some (Status_OK, d', lb')
          ∧ sets lb'
            = sets lb ++ [(dottedField (boundFieldRef pull5 ""),
                           loggedArray d' (Some 1%nat))]
          ∧ unsets lb' = unsets lb.
Proof.
  apply (pull_apply_log id 4 pull5 sampleDoc sampleRoot "" ExecInfo.new 1).
  - reflexivity.
  - left. reflexivity.
  - reflexivity.
  - reflexivity.
  - simpl. lia.
  - exists 3%nat. split; [set_solver|reflexivity].
Defined.

Lemma prepare_log_missing_witness :
  ∃ self' st,
    prepare 0 (pullLiteral ["a"; "9"; "x"]%string 0 (VInt 5)) sampleDoc
      sampleRoot "" ExecInfo.new
    = Some (Status_OK, self', sampleDoc,
            ExecInfo.set_noOp true
              (ExecInfo.set_fieldRef_0 (mkFieldRef ["a"; "9"; "x"]%string)
                 ExecInfo.new))
    ∧ _preparedState self' = Some st
    ∧ PreparedState.noOp st = true
    ∧ ∀ lb : LogBuilder,
        ∃ lb', log 0 self' sampleDoc lb = Some (Status_OK, sampleDoc, lb')
          ∧ unsets lb'
            = unsets lb ++ [unsetEntry (mkFieldRef ["a"; "9"; "x"]%string)]
          ∧ sets lb' = sets lb.
Proof.
  apply (prepare_log_missing 0 0 (pullLiteral ["a"; "9"; "x"]%string 0 (VInt 5))
           sampleDoc sampleRoot "" ExecInfo.new).
  - left. reflexivity.
  - vm_compute. discriminate.
  - right. exists 0, (Some 1%nat). split; [reflexivity|]. vm_compute. reflexivity.
Defined.

Lemma prepare_non_array_witness :
  ∃ self' st,
    prepare 0 (pullLiteral ["b"%string] 0 (VInt 7)) sampleDoc sampleRoot ""
      ExecInfo.new
    = Some (mkStatus ErrorCodes.BadValue
              "Cannot apply $pull to a non-array value",
            self', sampleDoc,
            ExecInfo.set_fieldRef_0 (mkFieldRef ["b"%string]) ExecInfo.new)
    ∧ _preparedState self' = Some st
    ∧ PreparedState.noOp st = false
    ∧ PreparedState.elementsToRemove st = [].
Proof.
  apply (prepare_non_array 0 (pullLiteral ["b"%string] 0 (VInt 7)) sampleDoc
           sampleRoot "" ExecInfo.new 6).
  - left. reflexivity.
  - reflexivity.
  - vm_compute. discriminate.
Defined.

Lemma prepare_nothing_to_pull_witness :
  ∃ self' st,
    prepare 4 (pullLiteral ["a"%string] 0 (VInt 9)) sampleDoc sampleRoot ""
      ExecInfo.new
    = Some (Status_OK, self', sampleDoc,
            ExecInfo.set_noOp true
              (ExecInfo.set_fieldRef_0 (mkFieldRef ["a"%string]) ExecInfo.new))
    ∧ _preparedState self' = Some st
    ∧ PreparedState.noOp st = true
    ∧ PreparedState.elementsToRemove st = [].
Proof.
  apply (prepare_nothing_to_pull id 4 (pullLiteral ["a"%string] 0 (VInt 9))
           sampleDoc sampleRoot "" ExecInfo.new 1).
  - left. reflexivity.
  - reflexivity.
  - reflexivity.
  - right. split; [reflexivity|]. split; [simpl; lia|].
    intros k Hk. simpl in Hk.
    repeat (apply elem_of_cons in Hk as [->|Hk]; [reflexivity|]).
    by apply elem_of_nil in Hk.
Defined.

Lemma prepare_execInfo_slots_witness :
  ∃ st, _preparedState samplePrepared = Some st
    ∧ if returnsEarly pull5 "" sampleDoc sampleRoot
      then ExecInfo.set_fieldRef_0 (mkFieldRef ["a"%string]) ExecInfo.new
           = ExecInfo.new
           ∧ isOK Status_OK = false
      else ExecInfo.fieldRef_0
             (ExecInfo.set_fieldRef_0 (mkFieldRef ["a"%string]) ExecInfo.new)
           = Some (boundFieldRef pull5 "")
           ∧ ExecInfo.fieldRef_1
               (ExecInfo.set_fieldRef_0 (mkFieldRef ["a"%string]) ExecInfo.new)
             = ExecInfo.fieldRef_1 ExecInfo.new
           ∧ ExecInfo.noOp
               (ExecInfo.set_fieldRef_0 (mkFieldRef ["a"%string]) ExecInfo.new)
             = PreparedState.noOp st || ExecInfo.noOp ExecInfo.new.
Proof.
  apply (prepare_execInfo_slots 4 pull5 sampleDoc sampleRoot "" ExecInfo.new
           Status_OK samplePrepared sampleDoc
           (ExecInfo.set_fieldRef_0 (mkFieldRef ["a"%string]) ExecInfo.new)).
  reflexivity.
Defined.


Lemma isMatch_literal_type_aware_witness :
  (repValue (leaf "1" (VInt 5) 1) = Some (VInt 5) →
   isMatch pull5 sampleDoc (Some 3%nat) = true)
  ∧ (repValue (leaf "1" (VInt 5) 1) = Some (VString "5") →
     isMatch pull5 sampleDoc (Some 3%nat) = false)
  ∧ (∀ x, repValue (leaf "1" (VInt 5) 1) = Some (VDouble x) →
       isMatch pull5 sampleDoc (Some 3%nat) = false).
Proof.
  apply (isMatch_literal_type_aware pull5 sampleDoc (Some 3%nat)
           (leaf "1" (VInt 5) 1)); reflexivity.
Defined.

Lemma pull_twice_noop_witness :
  ∃ self' st d',
    prepare 4 pull5 sampleDoc sampleRoot "" ExecInfo.new
    = Some (Status_OK, self', sampleDoc,
            ExecInfo.set_fieldRef_0 (boundFieldRef pull5 "") ExecInfo.new)
    ∧ _preparedState self' = Some st
    ∧ PreparedState.noOp st = false
    ∧ apply self' sampleDoc = Some (Status_OK, d')
    ∧ (∀ k, k ∈ childrenOf d' (Some 1%nat) → isMatch self' d' (Some k) = false)
    ∧ ∃ self'' st'',
        prepare 4 self' d' sampleRoot "" ExecInfo.new
        = Some (Status_OK, self'', d',
                ExecInfo.set_noOp true
                  (ExecInfo.set_fieldRef_0 (boundFieldRef pull5 "")
                     ExecInfo.new))
        ∧ _preparedState self'' = Some st''
        ∧ PreparedState.noOp st'' = true
        ∧ PreparedState.elementsToRemove st'' = [].
Proof.
  apply (pull_twice_noop id 4 pull5 sampleDoc sampleRoot "" ExecInfo.new
           ExecInfo.new 1).
  - reflexivity.
  - left. reflexivity.
  - reflexivity.
  - reflexivity.
  - simpl. lia.
  - exists 3%nat. split; [set_solver|reflexivity].
Defined.

(** [apply] returns OK even when a recorded removal is refused: the root
    has no parent. *)
Lemma apply_returns_OK_witness :
  ∃ d', apply (set_prepared (mkFieldRef ["a"%string])
                 (PreparedState.mk 0 (Some 1%nat) "" [Some 0%nat] false) pull5)
          sampleDoc
        = Some (Status_OK, d')
    ∧ d' = fold_left (λ doc where_, (remove doc where_).2) [Some 0%nat]
             sampleDoc
    ∧ length d' = length sampleDoc.
Proof.
  apply (apply_returns_OK
           (set_prepared (mkFieldRef ["a"%string])
              (PreparedState.mk 0 (Some 1%nat) "" [Some 0%nat] false) pull5)
           (PreparedState.mk 0 (Some 1%nat) "" [Some 0%nat] false) sampleDoc).
  reflexivity.
Defined.

(** * Further properties *)

(** ** What [prepare] hands over to [apply] *)

Lemma prefixLoop_bound d : ∀ ps i c n prev curr viable,
  prefixLoop d ps i c = (n, prev, curr, viable) →
  (i ≤ n ∧ n ≤ i + length ps)%nat.
Proof.
  induction ps as [|part rest IH]; intros i c n prev curr viable Hloop;
    simpl in Hloop.
  - simplify_eq. simpl. lia.
  - destruct (stepInto d c part) as [[next|] []]; simplify_eq; simpl; try lia.
    apply IH in Hloop. lia.
Qed.

Lemma findLongestPrefix_OK_index prefix d root idx0 elem0 status idx elem :
  findLongestPrefix prefix d root idx0 elem0 = (status, idx, elem) →
  isOK status = true →
  0 <= idx <= numParts prefix - 1 ∧ ok elem = true.
Proof.
  unfold findLongestPrefix. destruct root as [r|]; [|by intros [= <- _ _]].
  destruct (negb (hasChildren d (Some r)) || (numParts prefix =? 0));
    [by intros [= <- _ _]|].
  destruct (prefixLoop d (parts prefix) 0 r) as [[[n prev] curr] viable]
    eqn:Hloop.
  apply prefixLoop_bound in Hloop. unfold numParts.
  destruct n as [|n]; [by intros [= <- _ _]|].
  destruct curr as [curr|], viable; intros [= <- <- <-]; try done;
    intros _; split; try done; lia.
Qed.

Lemma prepare_walk_sound fuel self d : ∀ cursor acc l,
  prepare_walk fuel self d cursor acc = Some l →
  (∃ more, l = acc ++ more
           ∧ ∀ e, e ∈ more → ok e = true ∧ isMatch self d e = true).
Proof.
  induction fuel as [|fuel IH]; intros cursor acc l; simpl;
    destruct cursor as [k|]; try done.
  - intros [= <-]. exists []. split; [by rewrite app_nil_r|set_solver].
  - intros Hwalk. apply IH in Hwalk as (more & -> & Hmore).
    destruct (isMatch self d (Some k)) eqn:Hk; [|eauto].
    exists (Some k :: more). split; [by rewrite <- app_assoc|].
    intros e [->|He]%elem_of_cons; auto.
  - intros [= <-]. exists []. split; [by rewrite app_nil_r|set_solver].
Qed.

(** extra X1: when [prepare] returns OK without the no-op flag, the two
    conditions that [apply] asserts hold (the flag is false, the element
    found is valid and its index is that of the last part of the path), the
    element found is an array, something is recorded for removal, and the
    no-op slot of [execInfo] is as the caller left it. *)
Theorem prepare_ready_for_apply fuel self d root matchedField execInfo
    status self' d' execInfo' st :
  prepare fuel self d root matchedField execInfo
  = Some (status, self', d', execInfo') →
  _preparedState self' = Some st →
  isOK status = true →
  PreparedState.noOp st = false →
  numParts (_fieldRef self) <= SIZE_MAX →
  ok (PreparedState.elemFound st) = true
  ∧ PreparedState.idxFound st = size_t_sub (numParts (_fieldRef self')) 1
  ∧ getType d (PreparedState.elemFound st) = Array
  ∧ PreparedState.elementsToRemove st ≠ []
  ∧ ExecInfo.noOp execInfo' = ExecInfo.noOp execInfo.
Proof.
  intros Hprep Hst Hok Hnoop Hmax.
  rewrite <- (numParts_boundFieldRef self matchedField) in Hmax.
  unfold prepare, boundFieldRef in *.
  assert (∀ f idx, 1 <= numParts f → numParts f <= SIZE_MAX →
            0 <= idx <= numParts f - 1 → (idx <? size_t_sub (numParts f) 1) = false →
            idx = size_t_sub (numParts f) 1) as Hlast.
  { intros f idx H1 H2 H3 H4. apply Z.ltb_ge in H4.
    unfold size_t_sub, SIZE_MAX in *. rewrite Z.mod_small in *; lia. }
  destruct (bool_decide (_posDollar self ≠ 0)) eqn:Hpos.
  - destruct (String.eqb matchedField ""); [by simplify_eq/=|].
    cbv beta iota zeta delta
      [PreparedState.new PreparedState.set_boundDollar PreparedState.idxFound
       PreparedState.elemFound] in Hprep.
    destruct (findLongestPrefix _ d root 0 Document_end)
      as [[st0 idx] elem] eqn:Hres.
    destruct (bool_decide (code st0 = ErrorCodes.NonExistentPath)) eqn:Hne;
      simpl in Hprep; [by simplify_eq/=|].
    destruct (isOK st0) eqn:Hok0; simpl in Hprep;
      [|simplify_eq/=; congruence].
    destruct (findLongestPrefix_OK_index _ _ _ _ _ _ _ _ Hres Hok0)
      as [Hidx Helem].
    rewrite Helem in Hprep. simpl in Hprep.
    destruct (idx <? size_t_sub _ 1) eqn:Hlt; [by simplify_eq/=|].
    destruct (bool_decide (getType d elem = Array)) eqn:Harr; simpl in Hprep;
      [|by simplify_eq/=].
    apply bool_decide_eq_true in Harr.
    destruct (hasChildren d elem); simpl in Hprep; [|by simplify_eq/=].
    destruct (prepare_walk fuel self d (leftChild d elem) []) as [[|x l]|];
      simplify_eq/=.
    repeat split; try done. apply Hlast; try done. lia.
  - cbv beta iota zeta delta
      [PreparedState.new PreparedState.set_boundDollar PreparedState.idxFound
       PreparedState.elemFound] in Hprep.
    destruct (findLongestPrefix _ d root 0 Document_end)
      as [[st0 idx] elem] eqn:Hres.
    destruct (bool_decide (code st0 = ErrorCodes.NonExistentPath)) eqn:Hne;
      simpl in Hprep; [by simplify_eq/=|].
    destruct (isOK st0) eqn:Hok0; simpl in Hprep;
      [|simplify_eq/=; congruence].
    destruct (findLongestPrefix_OK_index _ _ _ _ _ _ _ _ Hres Hok0)
      as [Hidx Helem].
    rewrite Helem in Hprep. simpl in Hprep.
    destruct (idx <? size_t_sub _ 1) eqn:Hlt; [by simplify_eq/=|].
    destruct (bool_decide (getType d elem = Array)) eqn:Harr; simpl in Hprep;
      [|by simplify_eq/=].
    apply bool_decide_eq_true in Harr.
    destruct (hasChildren d elem); simpl in Hprep; [|by simplify_eq/=].
    destruct (prepare_walk fuel self d (leftChild d elem) []) as [[|x l]|];
      simplify_eq/=.
    repeat split; try done. apply Hlast; try done. lia.
Qed.

(** extra X2: on every return of [prepare], each element recorded for
    removal is a valid element that satisfies the criterion; elements are
    recorded only on a successful return without the no-op flag; and when
    the flag is set in the prepared state the return is successful, the flag
    is set in [execInfo] too and nothing is recorded. *)
Theorem prepare_records_only_matches fuel self d root matchedField execInfo
    status self' d' execInfo' st :
  prepare fuel self d root matchedField execInfo
  = Some (status, self', d', execInfo') →
  _preparedState self' = Some st →
  (∀ e, e ∈ PreparedState.elementsToRemove st →
     ok e = true ∧ isMatch self d e = true)
  ∧ (PreparedState.elementsToRemove st ≠ [] →
       isOK status = true ∧ PreparedState.noOp st = false)
  ∧ (PreparedState.noOp st = true →
       isOK status = true ∧ ExecInfo.noOp execInfo' = true
       ∧ PreparedState.elementsToRemove st = []).
Proof.
  unfold prepare. intros Hprep Hst.
  destruct (bool_decide (_posDollar self ≠ 0)), (String.eqb matchedField "");
    cbv beta iota zeta in Hprep;
    try (simplify_eq/=; repeat split; (done || set_solver));
    (destruct (findLongestPrefix _ d root _ _) as [[st0 idx] elem];
     destruct (bool_decide (code st0 = ErrorCodes.NonExistentPath));
     [simplify_eq/=; repeat split; (done || set_solver)|];
     destruct (isOK st0); simpl in Hprep;
     [|simplify_eq/=; repeat split; (done || set_solver)];
     destruct (negb (ok elem) || _); simpl in Hprep;
     [simplify_eq/=; repeat split; (done || set_solver)|];
     destruct (bool_decide (getType d elem = Array)); simpl in Hprep;
     [|simplify_eq/=; repeat split; (done || set_solver)];
     destruct (hasChildren d elem); simpl in Hprep;
     [|simplify_eq/=; repeat split; (done || set_solver)];
     destruct (prepare_walk fuel self d (leftChild d elem) [])
       as [toRemove|] eqn:Hwalk; [|done];
     apply prepare_walk_sound in Hwalk as (more & -> & Hmore);
     destruct more as [|x more]; simplify_eq/=;
     repeat split; try (done || set_solver); by apply Hmore).
Qed.

(** ** What [prepare] leaves in the modifier *)

Lemma prepare_self fuel self d root matchedField execInfo status self' d'
    execInfo' :
  prepare fuel self d root matchedField execInfo
  = Some (status, self', d', execInfo') →
  ∃ st,
    self' = set_prepared (_fieldRef self) st self
    ∨ (_posDollar self ≠ 0
       ∧ self' = set_prepared
                   (setPart (_fieldRef self) (_posDollar self) matchedField)
                   st self).
Proof.
  unfold prepare. intros Hprep.
  destruct (bool_decide (_posDollar self ≠ 0)) eqn:Hpos.
  - apply bool_decide_eq_true in Hpos.
    repeat case_match; simplify_eq/=; eauto.
  - repeat case_match; simplify_eq/=; eauto.
Qed.

Lemma prepare_walk_set_prepared fuel f st self d : ∀ cursor acc,
  prepare_walk fuel (set_prepared f st self) d cursor acc
  = prepare_walk fuel self d cursor acc.
Proof.
  induction fuel as [|fuel IH]; intros cursor acc; [done|]. simpl.
  destruct cursor; [|done]. apply IH.
Qed.

Lemma setPart_setPart f i part part' :
  setPart (setPart f i part) i part' = setPart f i part'.
Proof. unfold setPart. simpl. by rewrite list_insert_insert_eq. Qed.

(** extra X3: a [prepare] leaves nothing in the modifier that a later
    [prepare] can observe: on any document and with any matched field that
    can be bound, the modifier returned by an earlier [prepare] gives exactly
    the result that the original modifier gives. *)
Theorem prepare_leaves_no_trace fuel0 self d0 root0 matchedField0 execInfo0
    status0 self0 d0' execInfo0' fuel d root matchedField execInfo :
  prepare fuel0 self d0 root0 matchedField0 execInfo0
  = Some (status0, self0, d0', execInfo0') →
  bindable self matchedField →
  prepare fuel self0 d root matchedField execInfo
  = prepare fuel self d root matchedField execInfo.
Proof.
  intros Hprep Hbind.
  destruct (prepare_self _ _ _ _ _ _ _ _ _ _ Hprep) as (st & [->|[Hpos ->]]).
  - unfold prepare. simpl.
    repeat (case_match; simplify_eq/=; try done);
      by rewrite ?prepare_walk_set_prepared in *; simplify_eq.
  - unfold prepare. simpl.
    rewrite bool_decide_eq_true_2 by done.
    rewrite (bindable_nonempty self matchedField Hbind)
      by (by apply bool_decide_eq_true_2).
    rewrite setPart_setPart.
    repeat (case_match; simplify_eq/=; try done);
      by rewrite ?prepare_walk_set_prepared in *; simplify_eq.
Qed.

(** extra X4: [prepare] never alters the criterion of the modifier: the
    index of the positional field, the expression, the compiled predicate
    and the primitive-match flag are those it received, so the modifier it
    returns matches the same elements; of the path it rewrites at most the
    part at the positional index, and nothing when there is none. *)
Theorem prepare_keeps_criterion fuel self d root matchedField execInfo
    status self' d' execInfo' :
  prepare fuel self d root matchedField execInfo
  = Some (status, self', d', execInfo') →
  _posDollar self' = _posDollar self
  ∧ _exprElt self' = _exprElt self
  ∧ _exprObj self' = _exprObj self
  ∧ _matchExpr self' = _matchExpr self
  ∧ _matcherOnPrimitive self' = _matcherOnPrimitive self
  ∧ (∀ doc e, isMatch self' doc e = isMatch self doc e)
  ∧ numParts (_fieldRef self') = numParts (_fieldRef self)
  ∧ (∀ i : nat, i ≠ Z.to_nat (_posDollar self) →
       parts (_fieldRef self') !! i = parts (_fieldRef self) !! i)
  ∧ (_posDollar self = 0 → _fieldRef self' = _fieldRef self).
Proof.
  intros Hprep.
  destruct (prepare_self _ _ _ _ _ _ _ _ _ _ Hprep) as (st & [->|[Hpos ->]]);
    simpl; repeat split; try done.
  - apply numParts_setPart.
  - intros i Hi. by apply list_lookup_insert_ne.
Qed.

(** ** [log] without [apply] *)

(** extra X5: [log] records the array as it stands when [log] runs.  Called
    after a [prepare] that resolved the path in full to an array, and without
    [apply], it appends one set entry whose value is the whole array,
    matching elements included, whether or not [prepare] decided on a
    no-op. *)
Theorem log_without_apply_records_whole_array rank fuel self d root
    matchedField execInfo a :
  wellFormed rank d = true →
  bindable self matchedField →
  resolve self matchedField d root
  = (Status_OK, numParts (boundFieldRef self matchedField) - 1, Some a) →
  getType d (Some a) = Array →
  (length (childrenOf d (Some a)) ≤ fuel)%nat →
  ∃ self' execInfo',
    prepare fuel self d root matchedField execInfo
    = Some (Status_OK, self', d, execInfo')
    ∧ ∀ lb : LogBuilder,
        ∃ lb', log fuel self' d lb = Some (Status_OK, d, lb')
          ∧ sets lb'
            = sets lb ++ [(dottedField (boundFieldRef self matchedField),
                           loggedArray d (Some a))]
          ∧ unsets lb' = unsets lb.
Proof.
  intros Hwfb Hbind Hres Htype Hfuel.
  pose proof (wellFormed_wfDoc rank d Hwfb) as Hwf.
  pose proof (wfDoc_siblings rank d a Hwf) as Hsib.
  pose proof (resolve_OK_numParts _ _ _ _ _ _ _ Hres) as Hn.
  pose proof (prepare_resolved_array fuel self d root matchedField execInfo a
                Hsib Hbind Hres Htype Hfuel) as Hprep.
  simpl in Hprep.
  set (st := PreparedState.mk _ _ _ _ _) in Hprep.
  set (self' := set_prepared _ st self) in Hprep.
  exists self'. eexists. split; [exact Hprep|]. intros lb.
  destruct (log_set_LogBuilder fuel self' st d a lb Hsib)
    as (lb' & Hlog & Hsets & Hunsets); try done.
  exists lb'. by rewrite Hlog, Hsets.
Qed.

(** ** [apply] on the whole document *)

Lemma wfDoc_wellFormed rank d : wfDoc rank d → wellFormed rank d = true.
Proof.
  intros Hwf. unfold wellFormed. apply forallb_forall.
  intros [i rep] Hin. apply list_elem_of_In, list_elem_of_lookup in Hin
    as [j Hj].
  rewrite list_lookup_imap in Hj.
  destruct (d !! j) as [rep'|] eqn:Hdj; simplify_eq/=.
  destruct (Hwf i rep Hdj) as (Hnd & Hkids & Hrank).
  unfold wellFormedRep. apply andb_true_intro. split.
  - apply andb_true_intro. split; [by apply bool_decide_eq_true_2|].
    apply forallb_forall. intros k Hk%list_elem_of_In.
    destruct (Hkids k Hk) as (krep & -> & Hp).
    by apply bool_decide_eq_true_2.
  - destruct (parent rep) as [p|]; [|done]. apply Nat.ltb_lt. auto.
Qed.

(** Detaching children of [a] keeps a document well formed. *)
Lemma pulled_wfDoc rank a gone d d' :
  wfDoc rank d → pulled rank a gone d d' →
  (∀ k, k ∈ gone → ∃ krep, d !! k = Some krep ∧ parent krep = Some a) →
  wfDoc rank d'.
Proof.
  intros Hwf [Hl Hp] Hgone i rep' Hi'.
  destruct (d !! i) as [rep|] eqn:Hi.
  2:{ apply lookup_ge_None in Hi. apply lookup_lt_Some in Hi'. lia. }
  destruct (Hwf i rep Hi) as (Hnd & Hkids & Hrank).
  destruct (Hp i rep Hi) as (rep'' & Hi'' & _ & _ & Hc & Hpar & _).
  assert (rep'' = rep') as -> by congruence.
  assert (∀ k, k ∈ children rep' → k ∈ children rep ∧ (i = a → k ∉ gone))
    as Hsub.
  { intros k. rewrite Hc. destruct (decide (i = a)); [|done].
    rewrite list_elem_of_filter. naive_solver. }
  split; [|split].
  - rewrite Hc. destruct (decide (i = a)); [by apply NoDup_filter|done].
  - intros k Hk. destruct (Hsub k Hk) as [Hk0 Hnot].
    destruct (Hkids k Hk0) as (krep & Hdk & Hkp).
    destruct (Hp k krep Hdk) as (krep' & Hdk' & _ & _ & _ & Hkp' & _).
    exists krep'. split; [done|]. rewrite Hkp'.
    destruct (decide (k ∈ gone)) as [Hin|]; [|done].
    destruct (Hgone k Hin) as (krep0 & Hdk0 & Hka). simplify_eq.
    by destruct Hnot.
  - intros p Hpp. rewrite Hpar in Hpp.
    destruct (decide (i ∈ gone)); [done|]. auto.
Qed.

Lemma matching_children rank self d a :
  wfDoc rank d →
  ∀ k, k ∈ matching self d (childrenOf d (Some a)) →
    ∃ krep, d !! k = Some krep ∧ parent krep = Some a.
Proof.
  intros Hwf k [_ Hk]%list_elem_of_filter. unfold childrenOf, getRep in Hk.
  destruct (d !! a) as [arep|] eqn:Ha; [|set_solver].
  destruct (Hwf a arep Ha) as (_ & Hkids & _). auto.
Qed.

(** [prepare] and then [apply], on a path resolved in full to an array. *)
Lemma prepare_apply_pulled rank fuel self d root matchedField execInfo a :
  wellFormed rank d = true →
  bindable self matchedField →
  resolve self matchedField d root
  = (Status_OK, numParts (boundFieldRef self matchedField) - 1, Some a) →
  getType d (Some a) = Array →
  (length (childrenOf d (Some a)) ≤ fuel)%nat →
  ∃ self' execInfo' st d',
    prepare fuel self d root matchedField execInfo
    = Some (Status_OK, self', d, execInfo')
    ∧ _preparedState self' = Some st
    ∧ PreparedState.elementsToRemove st
      = Some <$> matching self d (childrenOf d (Some a))
    ∧ apply self' d = Some (Status_OK, d')
    ∧ pulled rank a (matching self d (childrenOf d (Some a))) d d'.
Proof.
  intros Hwfb Hbind Hres Htype Hfuel.
  pose proof (wellFormed_wfDoc rank d Hwfb) as Hwf.
  pose proof (prepare_resolved_array fuel self d root matchedField execInfo a
                (wfDoc_siblings rank d a Hwf) Hbind Hres Htype Hfuel) as Hprep.
  simpl in Hprep. eexists _, _, _, _. split; [exact Hprep|].
  split; [reflexivity|]. split; [reflexivity|]. split; [reflexivity|].
  by apply apply_matching_pulled.
Qed.

(** extra X6: [apply] keeps the document well formed: after [prepare] and
    [apply] on a well-formed document, the children of every element are
    still distinct, still name it as their parent, and ranks still grow from
    parent to child. *)
Theorem apply_keeps_wellFormed rank fuel self d root matchedField execInfo a :
  wellFormed rank d = true →
  bindable self matchedField →
  resolve self matchedField d root
  = (Status_OK, numParts (boundFieldRef self matchedField) - 1, Some a) →
  getType d (Some a) = Array →
  (length (childrenOf d (Some a)) ≤ fuel)%nat →
  ∃ self' execInfo' d',
    prepare fuel self d root matchedField execInfo
    = Some (Status_OK, self', d, execInfo')
    ∧ apply self' d = Some (Status_OK, d')
    ∧ wellFormed rank d' = true.
Proof.
  intros Hwfb Hbind Hres Htype Hfuel.
  destruct (prepare_apply_pulled rank fuel self d root matchedField execInfo a)
    as (self' & execInfo' & st & d' & Hprep & _ & _ & Happly & Hpulled);
    try done.
  exists self', execInfo', d'. do 2 (split; [done|]).
  pose proof (wellFormed_wfDoc rank d Hwfb) as Hwf.
  apply wfDoc_wellFormed.
  eapply pulled_wfDoc; [exact Hwf|exact Hpulled|].
  by apply (matching_children rank).
Qed.

(** extra X7: [apply] touches nothing but the array and the elements it
    removes.  Every element keeps its name and type; every element other
    than the array keeps its children; every element that is not removed
    keeps its parent; and a removed element stays a usable handle: it has no
    parent any more but still has its value. *)
Theorem apply_touches_only_the_array rank fuel self d root matchedField
    execInfo a :
  wellFormed rank d = true →
  bindable self matchedField →
  resolve self matchedField d root
  = (Status_OK, numParts (boundFieldRef self matchedField) - 1, Some a) →
  getType d (Some a) = Array →
  (length (childrenOf d (Some a)) ≤ fuel)%nat →
  ∃ self' execInfo' d',
    prepare fuel self d root matchedField execInfo
    = Some (Status_OK, self', d, execInfo')
    ∧ apply self' d = Some (Status_OK, d')
    ∧ length d' = length d
    ∧ ∀ j rep, d !! j = Some rep →
        ∃ rep', d' !! j = Some rep'
          ∧ repName rep' = repName rep
          ∧ repType rep' = repType rep
          ∧ (j ≠ a → children rep' = children rep)
          ∧ (j ∉ matching self d (childrenOf d (Some a)) →
               parent rep' = parent rep)
          ∧ (j ∈ matching self d (childrenOf d (Some a)) →
               parent rep' = None ∧ repValue rep' = repValue rep).
Proof.
  intros Hwfb Hbind Hres Htype Hfuel.
  destruct (prepare_apply_pulled rank fuel self d root matchedField execInfo a)
    as (self' & execInfo' & st & d' & Hprep & _ & _ & Happly & Hl & Hp);
    try done.
  pose proof (wellFormed_wfDoc rank d Hwfb) as Hwf.
  exists self', execInfo', d'. do 3 (split; [done|]). intros j rep Hj.
  destruct (Hp j rep Hj) as (rep' & Hj' & Hn & Ht & Hc & Hpar & Hv).
  exists rep'. do 3 (split; [done|]). split; [|split].
  - intros Hne. by rewrite Hc, decide_False.
  - intros Hnot. by rewrite Hpar, decide_False.
  - intros Hin. split; [by rewrite Hpar, decide_True|].
    apply Hv. apply list_elem_of_filter in Hin as [_ Hin].
    by apply (child_rank rank d a j Hwf).
Qed.

Lemma remove_detached d k rep :
  d !! k = Some rep → parent rep = None → (remove d (Some k)).2 = d.
Proof. intros Hk Hp. unfold remove. by rewrite Hk, Hp. Qed.

(** extra X8: running [apply] a second time changes nothing: every element
    it recorded is already detached, each removal is refused, and [apply]
    returns OK with the document as the first run left it. *)
Theorem apply_twice rank fuel self d root matchedField execInfo a :
  wellFormed rank d = true →
  bindable self matchedField →
  resolve self matchedField d root
  = (Status_OK, numParts (boundFieldRef self matchedField) - 1, Some a) →
  getType d (Some a) = Array →
  (length (childrenOf d (Some a)) ≤ fuel)%nat →
  ∃ self' execInfo' st d',
    prepare fuel self d root matchedField execInfo
    = Some (Status_OK, self', d, execInfo')
    ∧ _preparedState self' = Some st
    ∧ apply self' d = Some (Status_OK, d')
    ∧ (∀ e, e ∈ PreparedState.elementsToRemove st →
         isOK (remove d' e).1 = false)
    ∧ apply self' d' = Some (Status_OK, d').
Proof.
  intros Hwfb Hbind Hres Htype Hfuel.
  destruct (prepare_apply_pulled rank fuel self d root matchedField execInfo a)
    as (self' & execInfo' & st & d' & Hprep & Hst & Hrec & Happly & Hl & Hp);
    try done.
  pose proof (wellFormed_wfDoc rank d Hwfb) as Hwf.
  assert (∀ k, k ∈ matching self d (childrenOf d (Some a)) →
            ∃ rep', d' !! k = Some rep' ∧ parent rep' = None) as Hdet.
  { intros k Hk.
    destruct (matching_children rank self d a Hwf k Hk) as (krep & Hdk & _).
    destruct (Hp k krep Hdk) as (rep' & Hdk' & _ & _ & _ & Hpar & _).
    exists rep'. split; [done|]. by rewrite Hpar, decide_True. }
  exists self', execInfo', st, d'. do 3 (split; [done|]). split.
  - intros e. rewrite Hrec. intros (k & -> & Hk)%list_elem_of_fmap.
    destruct (Hdet k Hk) as (rep' & Hdk' & Hpar).
    unfold remove. by rewrite Hdk', Hpar.
  - rewrite (apply_prepared self' st d' Hst), Hrec. do 2 f_equal.
    revert Hdet. generalize (matching self d (childrenOf d (Some a))).
    intros l Hdet. induction l as [|k l IH]; [done|].
    rewrite fmap_cons. cbn [fold_left].
    destruct (Hdet k) as (rep' & Hdk' & Hpar); [set_solver|].
    rewrite (remove_detached d' k rep' Hdk' Hpar).
    apply IH. intros k' Hk'. apply Hdet. set_solver.
Qed.

(** extra X9: a predicate over objects never pulls a value that is not an
    object: when the compiled predicate is not in primitive-match mode and
    no element of the array is of type Object, [prepare] decides on a
    no-op. *)
Theorem prepare_object_predicate_skips_scalars rank fuel self d root
    matchedField execInfo a matchExpr :
  wellFormed rank d = true →
  bindable self matchedField →
  resolve self matchedField d root
  = (Status_OK, numParts (boundFieldRef self matchedField) - 1, Some a) →
  getType d (Some a) = Array →
  (length (childrenOf d (Some a)) ≤ fuel)%nat →
  _matchExpr self = Some matchExpr →
  _matcherOnPrimitive self = false →
  (∀ k, k ∈ childrenOf d (Some a) → getType d (Some k) ≠ Object) →
  ∃ self' st,
    prepare fuel self d root matchedField execInfo
    = Some (Status_OK, self', d,
            ExecInfo.set_noOp true
              (ExecInfo.set_fieldRef_0 (boundFieldRef self matchedField)
                 execInfo))
    ∧ _preparedState self' = Some st
    ∧ PreparedState.noOp st = true
    ∧ PreparedState.elementsToRemove st = [].
Proof.
  intros Hwfb Hbind Hres Htype Hfuel Hme Hprim Hkids.
  pose proof (wellFormed_wfDoc rank d Hwfb) as Hwf.
  pose proof (prepare_resolved_array fuel self d root matchedField execInfo a
                (wfDoc_siblings rank d a Hwf) Hbind Hres Htype Hfuel) as Hprep.
  simpl in Hprep. rewrite matching_nil in Hprep.
  - simpl in Hprep. eauto 10.
  - intros k Hk. unfold isMatch. rewrite Hme, Hprim.
    by rewrite bool_decide_eq_false_2 by auto.
Qed.

(** ** Where the statuses of [log] come from *)


(** ** [init] *)

Lemma isPositional_loop_count : ∀ ps i pos count,
  (isPositional_loop ps i pos count).2
  = count + Z.of_nat (length (filter (λ p, p = "$"%string) ps)).
Proof.
  induction ps as [|part rest IH]; intros i pos count; simpl; [lia|].
  rewrite filter_cons. destruct (String.eqb_spec part "$") as [->|Hne].
  - rewrite IH, decide_True by done. simpl. lia.
  - rewrite IH, decide_False by done. done.
Qed.

Lemma isPositional_loop_later : ∀ ps i pos count,
  count ≠ 0 → 0 <= count → (isPositional_loop ps i pos count).1 = pos.
Proof.
  induction ps as [|part rest IH]; intros i pos count Hne Hc; simpl; [done|].
  destruct (String.eqb part "$"); [|by apply IH].
  rewrite IH by lia. by rewrite (proj2 (Z.eqb_neq count 0)).
Qed.

Lemma isPositional_loop_first : ∀ pre rest i pos,
  "$"%string ∉ pre →
  (isPositional_loop (pre ++ "$"%string :: rest) i pos 0).1
  = i + Z.of_nat (length pre).
Proof.
  induction pre as [|part pre IH]; intros rest i pos Hnot; simpl.
  - rewrite isPositional_loop_later by lia. lia.
  - destruct (String.eqb_spec part "$") as [->|Hne]; [set_solver|].
    rewrite IH by set_solver. lia.
Qed.

Lemma filter_occurs {A} (P : A → Prop) `{∀ x, Decision (P x)} (l : list A) x :
  x ∈ l → P x → (1 ≤ length (filter P l))%nat.
Proof.
  intros Hin HP.
  assert (x ∈ filter P l) as Hf by (by apply list_elem_of_filter).
  destruct (filter P l); [set_solver|simpl; lia].
Qed.

Lemma two_occurrences (ps : list string) (x : string) (i j : nat) :
  ps !! i = Some x → ps !! j = Some x → (i < j)%nat →
  (2 ≤ length (filter (λ p, p = x) ps))%nat.
Proof.
  intros Hi Hj Hlt. rewrite <- (take_drop j ps), filter_app, length_app.
  assert (x ∈ take j ps) as H1.
  { apply list_elem_of_lookup. exists i. by rewrite lookup_take_lt. }
  assert (x ∈ drop j ps) as H2.
  { apply list_elem_of_lookup. exists 0%nat.
    by rewrite lookup_drop, Nat.add_0_r. }
  pose proof (filter_occurs (λ p, p = x) _ x H1 eq_refl).
  pose proof (filter_occurs (λ p, p = x) _ x H2 eq_refl). lia.
Qed.

Lemma prepare_fieldRef fuel self d root matchedField execInfo status self'
    d' execInfo' :
  prepare fuel self d root matchedField execInfo
  = Some (status, self', d', execInfo') →
  bindable self matchedField →
  _fieldRef self' = boundFieldRef self matchedField.
Proof.
  intros Hprep Hbind. revert Hprep. unfold prepare, boundFieldRef.
  destruct (bool_decide (_posDollar self ≠ 0)) eqn:Hpos.
  - rewrite (bindable_nonempty _ _ Hbind Hpos).
    repeat case_match; intros; by simplify_eq/=.
  - repeat case_match; intros; by simplify_eq/=.
Qed.

Section InitProperties.
Variable isUpdatable : FieldRef → Status.
Variable getGtLtOp : BSONElement → Z.
Variable MatchExpressionParser_parse : BSONObj → Status + MatchExpression.

(** extra X11: [init] refuses a field name with two positional segments:
    when the path passes the updatability check and "$" occurs at two
    places, it returns [BadValue] with "too many positional($) elements
    found." and takes over neither the expression nor a predicate. *)
Theorem init_too_many_positional self modExpr (i j : nat) :
  isOK (isUpdatable (FieldRef_parse modExpr.1)) = true →
  parts (FieldRef_parse modExpr.1) !! i = Some "$"%string →
  parts (FieldRef_parse modExpr.1) !! j = Some "$"%string →
  (i < j)%nat →
  ∃ self',
    init isUpdatable getGtLtOp MatchExpressionParser_parse self modExpr
    = (mkStatus ErrorCodes.BadValue "too many positional($) elements found.",
       self')
    ∧ _exprElt self' = _exprElt self
    ∧ _matchExpr self' = _matchExpr self
    ∧ _fieldRef self' = FieldRef_parse modExpr.1.
Proof.
  intros Hup Hi Hj Hlt. unfold init, isPositional. rewrite Hup. simpl.
  pose proof (isPositional_loop_count (parts (FieldRef_parse modExpr.1)) 0
                (_posDollar self) 0) as Hcount.
  pose proof (two_occurrences _ _ _ _ Hi Hj Hlt) as Htwo.
  destruct (isPositional_loop _ 0 (_posDollar self) 0) as [pos count].
  cbn [snd] in Hcount.
  rewrite (proj2 (Z.ltb_lt 0 count)), (proj2 (Z.ltb_lt 1 count)) by lia.
  simpl. eauto.
Qed.

(** What a successful [init] has checked and stored, whatever the shape of
    the expression. *)
Lemma init_OK self modExpr status self' :
  init isUpdatable getGtLtOp MatchExpressionParser_parse self modExpr
  = (status, self') → isOK status = true →
  _fieldRef self' = FieldRef_parse modExpr.1
  ∧ _exprElt self' = modExpr
  ∧ _posDollar self'
    = (isPositional_loop (parts (FieldRef_parse modExpr.1)) 0
         (_posDollar self) 0).1
  ∧ (length (filter (λ p, p = "$"%string)
               (parts (FieldRef_parse modExpr.1))) ≤ 1)%nat.
Proof.
  unfold init, isPositional.
  pose proof (isPositional_loop_count (parts (FieldRef_parse modExpr.1)) 0
                (_posDollar self) 0) as Hcount.
  destruct (isOK (isUpdatable _)) eqn:Hup; simpl;
    [|intros [= <- <-]; congruence].
  destruct (isPositional_loop _ 0 (_posDollar self) 0) as [pos count].
  cbn [snd] in Hcount.
  destruct ((0 <? count) && (1 <? count)) eqn:Hmany; [by intros [= <- <-]|].
  assert (length (filter (λ p, p = "$"%string)
                    (parts (FieldRef_parse modExpr.1))) ≤ 1)%nat.
  { apply andb_false_iff in Hmany as [H0%Z.ltb_ge|H1%Z.ltb_ge]; lia. }
  repeat case_match; intros; simplify_eq/=; done.
Qed.

(** extra X12: after a successful [init] with an expression that is not an
    object, the modifier matches by equality with that expression: [isMatch]
    accepts exactly the elements that compare equal to it, field names
    ignored. *)
Theorem init_literal_mode self modExpr status self' :
  init isUpdatable getGtLtOp MatchExpressionParser_parse self modExpr
  = (status, self') →
  isOK status = true →
  typeOf modExpr.2 ≠ Object →
  _matchExpr self = None →
  _exprElt self' = modExpr
  ∧ _matchExpr self' = None
  ∧ ∀ d e, isMatch self' d e = (compareWithBSONElement d e modExpr false =? 0).
Proof.
  intros Hinit Hok Htype Hnone. revert Hinit. unfold init.
  destruct (isOK (isUpdatable _)) eqn:Hup; simpl;
    [|intros [= <- <-]; congruence].
  destruct (isPositional _ _) as [[found pos] count].
  destruct (found && _); [intros [= <- <-]; done|].
  rewrite bool_decide_eq_false_2 by done.
  intros [= <- <-]. unfold isMatch. simpl. by rewrite Hnone.
Qed.

(** extra X13: after a successful [init] with an object expression, the
    modifier holds the predicate that the parser compiled, from the object
    itself or, when its first field is a comparison operator, from the
    object wrapped under an empty field name; [isMatch] then evaluates that
    predicate on the wrapped value of the element in the second case, and
    in the first on the object of an element of type Object, rejecting any
    other element.  The parser gives an error only with a status that is
    not OK. *)
Theorem init_predicate_mode self modExpr status self' :
  (∀ o st, MatchExpressionParser_parse o = inl st → isOK st = false) →
  init isUpdatable getGtLtOp MatchExpressionParser_parse self modExpr
  = (status, self') →
  isOK status = true →
  typeOf modExpr.2 = Object →
  ∃ matchExpr,
    _matchExpr self' = Some matchExpr
    ∧ _matcherOnPrimitive self'
      = negb (getGtLtOp (firstElement (embeddedObject modExpr)) =? 0)
    ∧ MatchExpressionParser_parse
        (if _matcherOnPrimitive self'
         then [(""%string, VObject (embeddedObject modExpr))]
         else embeddedObject modExpr)
      = inr matchExpr
    ∧ ∀ d e,
        isMatch self' d e
        = if _matcherOnPrimitive self'
          then matchesBSON matchExpr [(""%string, (getValue d e).2)]
          else bool_decide (getType d e = Object)
               && matchesBSON matchExpr (getValueObject d e).
Proof.
  intros Hparser Hinit Hok Htype. revert Hinit. unfold init.
  destruct (isOK (isUpdatable _)) eqn:Hup; simpl;
    [|intros [= <- <-]; congruence].
  destruct (isPositional _ _) as [[found pos] count].
  destruct (found && _); [intros [= <- <-]; done|].
  rewrite bool_decide_eq_true_2 by done.
  destruct (MatchExpressionParser_parse _) as [st|matchExpr] eqn:Hparse.
  { intros [= <- <-]. apply Hparser in Hparse. congruence. }
  intros [= <- <-]. exists matchExpr. simpl. do 3 (split; [done|]).
  intros d e. unfold isMatch, wrap. simpl.
  destruct (negb _); [done|]. by destruct (bool_decide _).
Qed.

(** extra X14: after a successful [init] on a field name with "$" at an
    index other than 0, that index is the positional index of the modifier;
    [prepare] then fails with "matched field not provided" when the matched
    field is empty, touching neither the document nor [execInfo], and with
    any other matched field it works on the path with that segment replaced
    by the matched field. *)
Theorem init_positional_then_prepare self modExpr status self' (i : nat) :
  init isUpdatable getGtLtOp MatchExpressionParser_parse self modExpr
  = (status, self') →
  isOK status = true →
  parts (FieldRef_parse modExpr.1) !! i = Some "$"%string →
  i ≠ 0%nat →
  _posDollar self' = Z.of_nat i
  ∧ (∀ fuel d root execInfo,
       ∃ m, prepare fuel self' d root "" execInfo
            = Some (mkStatus ErrorCodes.BadValue "matched field not provided",
                    m, d, execInfo))
  ∧ (∀ fuel d root matchedField execInfo st m d' execInfo',
       matchedField ≠ ""%string →
       prepare fuel self' d root matchedField execInfo
       = Some (st, m, d', execInfo') →
       _fieldRef m
       = mkFieldRef (<[i := matchedField]> (parts (FieldRef_parse modExpr.1)))).
Proof.
  intros Hinit Hok Hi Hne.
  destruct (init_OK self modExpr status self' Hinit Hok)
    as (Hfr & _ & Hpos & Hone).
  assert (_posDollar self' = Z.of_nat i) as Hposi.
  { rewrite Hpos. set (ps := parts (FieldRef_parse modExpr.1)) in *.
    assert ("$"%string ∉ take i ps) as Hnot.
    { intros (j & Hj)%list_elem_of_lookup.
      pose proof (lookup_lt_Some _ _ _ Hj) as Hlt. rewrite length_take in Hlt.
      rewrite lookup_take_lt in Hj by lia.
      pose proof (two_occurrences ps "$" j i Hj Hi). lia. }
    rewrite <- (take_drop_middle ps i "$" Hi).
    rewrite isPositional_loop_first by done.
    rewrite length_take. apply lookup_lt_Some in Hi. lia. }
  split; [done|]. split.
  - intros fuel d root execInfo. unfold prepare.
    rewrite bool_decide_eq_true_2 by (rewrite Hposi; lia). simpl. eauto.
  - intros fuel d root matchedField execInfo st m d' execInfo' Hmf Hprep.
    rewrite (prepare_fieldRef _ _ _ _ _ _ _ _ _ _ Hprep) by (by right).
    unfold boundFieldRef, setPart.
    rewrite bool_decide_eq_true_2 by (rewrite Hposi; lia).
    by rewrite Hfr, Hposi, Nat2Z.id.
Qed.

(** extra X15: a positional segment at index 0 is never bound.  After a
    successful [init] on a field name whose first segment is "$", the
    positional index is 0, which [prepare] takes for the absence of a
    positional field: it ignores the matched field, does not ask for one,
    and resolves the path with "$" as a field name. *)
Theorem init_leading_positional_never_bound self modExpr status self' :
  init isUpdatable getGtLtOp MatchExpressionParser_parse self modExpr
  = (status, self') →
  isOK status = true →
  parts (FieldRef_parse modExpr.1) !! 0%nat = Some "$"%string →
  _posDollar self' = 0
  ∧ ∀ fuel d root matchedField execInfo,
      boundFieldRef self' matchedField = FieldRef_parse modExpr.1
      ∧ prepare fuel self' d root matchedField execInfo
        = prepare fuel self' d root "" execInfo.
Proof.
  intros Hinit Hok H0.
  destruct (init_OK self modExpr status self' Hinit Hok)
    as (Hfr & _ & Hpos & _).
  assert (_posDollar self' = 0) as Hzero.
  { rewrite Hpos. destruct (parts (FieldRef_parse modExpr.1)) as [|p ps];
      simplify_eq/=. by rewrite isPositional_loop_later. }
  split; [done|]. intros fuel d root matchedField execInfo.
  unfold boundFieldRef, prepare.
  rewrite bool_decide_eq_false_2 by (rewrite Hzero; lia). done.
Qed.
End InitProperties.

(** ** The further properties at work *)

Lemma prepare_ready_for_apply_witness :
  ok (PreparedState.elemFound sampleState) = true
  ∧ PreparedState.idxFound sampleState
    = size_t_sub (numParts (_fieldRef samplePrepared)) 1
  ∧ getType sampleDoc (PreparedState.elemFound sampleState) = Array
  ∧ PreparedState.elementsToRemove sampleState ≠ []
  ∧ ExecInfo.noOp
      (ExecInfo.set_fieldRef_0 (mkFieldRef ["a"%string]) ExecInfo.new)
    = ExecInfo.noOp ExecInfo.new.
Proof.
  apply (prepare_ready_for_apply 4 pull5 sampleDoc sampleRoot "" ExecInfo.new
           Status_OK samplePrepared sampleDoc
           (ExecInfo.set_fieldRef_0 (mkFieldRef ["a"%string]) ExecInfo.new)
           sampleState).
  - reflexivity.
  - reflexivity.
  - reflexivity.
  - reflexivity.
  - vm_compute. discriminate.
Defined.

Lemma prepare_records_only_matches_witness :
  (∀ e, e ∈ PreparedState.elementsToRemove sampleState →
     ok e = true ∧ isMatch pull5 sampleDoc e = true)
  ∧ (PreparedState.elementsToRemove sampleState ≠ [] →
       isOK Status_OK = true ∧ PreparedState.noOp sampleState = false)
  ∧ (PreparedState.noOp sampleState = true →
       isOK Status_OK = true
       ∧ ExecInfo.noOp
           (ExecInfo.set_fieldRef_0 (mkFieldRef ["a"%string]) ExecInfo.new)
         = true
       ∧ PreparedState.elementsToRemove sampleState = []).
Proof.
  apply (prepare_records_only_matches 4 pull5 sampleDoc sampleRoot ""
           ExecInfo.new Status_OK samplePrepared sampleDoc
           (ExecInfo.set_fieldRef_0 (mkFieldRef ["a"%string]) ExecInfo.new)
           sampleState).
  - reflexivity.
  - reflexivity.
Defined.

Lemma prepare_leaves_no_trace_witness :
  prepare 4 samplePrepared sampleDoc sampleRoot "" ExecInfo.new
  = prepare 4 pull5 sampleDoc sampleRoot "" ExecInfo.new.
Proof.
  apply (prepare_leaves_no_trace 4 pull5 sampleDoc sampleRoot "" ExecInfo.new
           Status_OK samplePrepared sampleDoc
           (ExecInfo.set_fieldRef_0 (mkFieldRef ["a"%string]) ExecInfo.new)).
  - reflexivity.
  - left. reflexivity.
Defined.

Lemma prepare_keeps_criterion_witness :
  _posDollar samplePrepared = _posDollar pull5
  ∧ _exprElt samplePrepared = _exprElt pull5
  ∧ _exprObj samplePrepared = _exprObj pull5
  ∧ _matchExpr samplePrepared = _matchExpr pull5
  ∧ _matcherOnPrimitive samplePrepared = _matcherOnPrimitive pull5
  ∧ (∀ doc e, isMatch samplePrepared doc e = isMatch pull5 doc e)
  ∧ numParts (_fieldRef samplePrepared) = numParts (_fieldRef pull5)
  ∧ (∀ i : nat, i ≠ Z.to_nat (_posDollar pull5) →
       parts (_fieldRef samplePrepared) !! i = parts (_fieldRef pull5) !! i)
  ∧ (_posDollar pull5 = 0 → _fieldRef samplePrepared = _fieldRef pull5).
Proof.
  apply (prepare_keeps_criterion 4 pull5 sampleDoc sampleRoot "" ExecInfo.new
           Status_OK samplePrepared sampleDoc
           (ExecInfo.set_fieldRef_0 (mkFieldRef ["a"%string]) ExecInfo.new)).
  reflexivity.
Defined.

Lemma log_without_apply_records_whole_array_witness :
  ∃ self' execInfo',
    prepare 4 pull5 sampleDoc sampleRoot "" ExecInfo.new
    = Some (Status_OK, self', sampleDoc, execInfo')
    ∧ ∀ lb : LogBuilder,
        ∃ lb', log 4 self' sampleDoc lb = Some (Status_OK, sampleDoc, lb')
          ∧ sets lb'
            = sets lb ++ [(dottedField (boundFieldRef pull5 ""),
                           loggedArray sampleDoc (Some 1%nat))]
          ∧ unsets lb' = unsets lb.
Proof.
  apply (log_without_apply_records_whole_array id 4 pull5 sampleDoc sampleRoot
           "" ExecInfo.new 1).
  - reflexivity.
  - left. reflexivity.
  - reflexivity.
  - reflexivity.
  - simpl. lia.
Defined.

Lemma apply_keeps_wellFormed_witness :
  ∃ self' execInfo' d',
    prepare 4 pull5 sampleDoc sampleRoot "" ExecInfo.new
    = Some (Status_OK, self', sampleDoc, execInfo')
    ∧ apply self' sampleDoc = Some (Status_OK, d')
    ∧ wellFormed id d' = true.
Proof.
  apply (apply_keeps_wellFormed id 4 pull5 sampleDoc sampleRoot ""
           ExecInfo.new 1).
  - reflexivity.
  - left. reflexivity.
  - reflexivity.
  - reflexivity.
  - simpl. lia.
Defined.

Lemma apply_touches_only_the_array_witness :
  ∃ self' execInfo' d',
    prepare 4 pull5 sampleDoc sampleRoot "" ExecInfo.new
    = Some (Status_OK, self', sampleDoc, execInfo')
    ∧ apply self' sampleDoc = Some (Status_OK, d')
    ∧ length d' = length sampleDoc
    ∧ ∀ j rep, sampleDoc !! j = Some rep →
        ∃ rep', d' !! j = Some rep'
          ∧ repName rep' = repName rep
          ∧ repType rep' = repType rep
          ∧ (j ≠ 1%nat → children rep' = children rep)
          ∧ (j ∉ matching pull5 sampleDoc (childrenOf sampleDoc (Some 1%nat)) →
               parent rep' = parent rep)
          ∧ (j ∈ matching pull5 sampleDoc (childrenOf sampleDoc (Some 1%nat)) →
               parent rep' = None ∧ repValue rep' = repValue rep).
Proof.
  apply (apply_touches_only_the_array id 4 pull5 sampleDoc sampleRoot ""
           ExecInfo.new 1).
  - reflexivity.
  - left. reflexivity.
  - reflexivity.
  - reflexivity.
  - simpl. lia.
Defined.

Lemma apply_twice_witness :
  ∃ self' execInfo' st d',
    prepare 4 pull5 sampleDoc sampleRoot "" ExecInfo.new
    = Some (Status_OK, self', sampleDoc, execInfo')
    ∧ _preparedState self' = Some st
    ∧ apply self' sampleDoc = Some (Status_OK, d')
    ∧ (∀ e, e ∈ PreparedState.elementsToRemove st →
         isOK (remove d' e).1 = false)
    ∧ apply self' d' = Some (Status_OK, d').
Proof.
  apply (apply_twice id 4 pull5 sampleDoc sampleRoot "" ExecInfo.new 1).
  - reflexivity.
  - left. reflexivity.
  - reflexivity.
  - reflexivity.
  - simpl. lia.
Defined.

Lemma prepare_object_predicate_skips_scalars_witness :
  ∃ self' st,
    prepare 4 pullObjects sampleDoc sampleRoot "" ExecInfo.new
    = Some (Status_OK, self', sampleDoc,
            ExecInfo.set_noOp true
              (ExecInfo.set_fieldRef_0 (boundFieldRef pullObjects "")
                 ExecInfo.new))
    ∧ _preparedState self' = Some st
    ∧ PreparedState.noOp st = true
    ∧ PreparedState.elementsToRemove st = [].
Proof.
  apply (prepare_object_predicate_skips_scalars id 4 pullObjects sampleDoc
           sampleRoot "" ExecInfo.new 1 (mkMatchExpression (λ _, true))).
  - reflexivity.
  - left. reflexivity.
  - reflexivity.
  - reflexivity.
  - simpl. lia.
  - reflexivity.
  - reflexivity.
  - intros k Hk. simpl in Hk.
    repeat (apply elem_of_cons in Hk as [->|Hk]; [vm_compute; discriminate|]).
    by apply elem_of_nil in Hk.
Defined.


Lemma init_too_many_positional_witness :
  ∃ self',
    sampleInit ("a.$.b.$"%string, VInt 5)
    = (mkStatus ErrorCodes.BadValue "too many positional($) elements found.",
       self')
    ∧ _exprElt self' = _exprElt ModifierPull_new
    ∧ _matchExpr self' = _matchExpr ModifierPull_new
    ∧ _fieldRef self' = FieldRef_parse "a.$.b.$".
Proof.
  apply (init_too_many_positional acceptAll sampleGetGtLtOp sampleParse
           ModifierPull_new ("a.$.b.$"%string, VInt 5) 1 3).
  - reflexivity.
  - reflexivity.
  - reflexivity.
  - lia.
Defined.

Lemma init_literal_mode_witness :
  _exprElt (sampleInit ("a"%string, VInt 5)).2 = ("a"%string, VInt 5)
  ∧ _matchExpr (sampleInit ("a"%string, VInt 5)).2 = None
  ∧ ∀ d e,
      isMatch (sampleInit ("a"%string, VInt 5)).2 d e
      = (compareWithBSONElement d e ("a"%string, VInt 5) false =? 0).
Proof.
  apply (init_literal_mode acceptAll sampleGetGtLtOp sampleParse
           ModifierPull_new ("a"%string, VInt 5)
           (sampleInit ("a"%string, VInt 5)).1).
  - reflexivity.
  - reflexivity.
  - vm_compute. discriminate.
  - reflexivity.
Defined.

Lemma init_predicate_mode_witness :
  ∃ matchExpr,
    _matchExpr (sampleInit ("a"%string, VObject [("$gt"%string, VInt 3)])).2
    = Some matchExpr
    ∧ _matcherOnPrimitive
        (sampleInit ("a"%string, VObject [("$gt"%string, VInt 3)])).2
      = negb (sampleGetGtLtOp
                (firstElement
                   (embeddedObject
                      ("a"%string, VObject [("$gt"%string, VInt 3)]))) =? 0)
    ∧ sampleParse
        (if _matcherOnPrimitive
              (sampleInit ("a"%string, VObject [("$gt"%string, VInt 3)])).2
         then [(""%string,
                VObject
                  (embeddedObject
                     ("a"%string, VObject [("$gt"%string, VInt 3)])))]
         else embeddedObject ("a"%string, VObject [("$gt"%string, VInt 3)]))
      = inr matchExpr
    ∧ ∀ d e,
        isMatch (sampleInit ("a"%string, VObject [("$gt"%string, VInt 3)])).2
          d e
        = if _matcherOnPrimitive
               (sampleInit ("a"%string, VObject [("$gt"%string, VInt 3)])).2
          then matchesBSON matchExpr [(""%string, (getValue d e).2)]
          else bool_decide (getType d e = Object)
               && matchesBSON matchExpr (getValueObject d e).
Proof.
  apply (init_predicate_mode acceptAll sampleGetGtLtOp sampleParse
           ModifierPull_new ("a"%string, VObject [("$gt"%string, VInt 3)])
           (sampleInit ("a"%string, VObject [("$gt"%string, VInt 3)])).1).
  - intros o st. destruct o; [intros [= <-]; reflexivity|discriminate].
  - reflexivity.
  - reflexivity.
  - reflexivity.
Defined.

Lemma init_positional_then_prepare_witness :
  _posDollar (sampleInit ("a.$.b"%string, VInt 5)).2 = Z.of_nat 1
  ∧ (∀ fuel d root execInfo,
       ∃ m, prepare fuel (sampleInit ("a.$.b"%string, VInt 5)).2 d root ""
              execInfo
            = Some (mkStatus ErrorCodes.BadValue "matched field not provided",
                    m, d, execInfo))
  ∧ (∀ fuel d root matchedField execInfo st m d' execInfo',
       matchedField ≠ ""%string →
       prepare fuel (sampleInit ("a.$.b"%string, VInt 5)).2 d root
         matchedField execInfo
       = Some (st, m, d', execInfo') →
       _fieldRef m
       = mkFieldRef (<[1%nat := matchedField]> (parts (FieldRef_parse "a.$.b")))).
Proof.
  apply (init_positional_then_prepare acceptAll sampleGetGtLtOp sampleParse
           ModifierPull_new ("a.$.b"%string, VInt 5)
           (sampleInit ("a.$.b"%string, VInt 5)).1).
  - reflexivity.
  - reflexivity.
  - reflexivity.
  - lia.
Defined.

Lemma init_leading_positional_never_bound_witness :
  _posDollar (sampleInit ("$.a"%string, VInt 5)).2 = 0
  ∧ ∀ fuel d root matchedField execInfo,
      boundFieldRef (sampleInit ("$.a"%string, VInt 5)).2 matchedField
      = FieldRef_parse "$.a"
      ∧ prepare fuel (sampleInit ("$.a"%string, VInt 5)).2 d root matchedField
          execInfo
        = prepare fuel (sampleInit ("$.a"%string, VInt 5)).2 d root ""
            execInfo.
Proof.
  apply (init_leading_positional_never_bound acceptAll sampleGetGtLtOp
           sampleParse ModifierPull_new ("$.a"%string, VInt 5)
           (sampleInit ("$.a"%string, VInt 5)).1).
  - reflexivity.
  - reflexivity.
  - reflexivity.
Defined.
